(** * Custom autograd functions of [Pytorch/Extending_torch_autograd.ipynb]

    The notebook defines two [torch.autograd.Function] subclasses,
    [LinearFunction] and [MulConstant] (the latter in a plain and in a
    [set_materialize_grads(False)] variant).  Their [forward] and [backward]
    methods are embedded here as programs of a state-and-exception monad over
    a store of tensor storages, so that allocation, views and in-place
    updates are explicit.

    Scalars are kept abstract: only a zero, an addition and a multiplication
    are assumed, with no algebraic law, so every result holds for any
    arithmetic the tensors are instantiated with. *)

From stdpp Require Import gmap list.

(** ** Scalars *)

Class Scalar (R : Type) := {
  R0 : R;
  Radd : R → R → R;
  Rmul : R → R → R
}.

#[global] Instance Z_Scalar : Scalar Z :=
  {| R0 := 0%Z; Radd := Z.add; Rmul := Z.mul |}.

(** ** Tensors as strided views of shared storages *)

Abbreviation loc := nat.

(** A Tensor object: the storage it reads, an offset into it, and one
    (size, stride) pair per dimension.  Views ([t], [unsqueeze], [expand])
    make new Tensor objects over the same storage. *)
Record Tensor := MkTensor {
  base : loc;
  offset : nat;
  dims : list (nat * nat)
}.

Definition sizes (x : Tensor) : list nat := (dims x).*1.
Definition strides (x : Tensor) : list nat := (dims x).*2.

(** Number of elements of a shape. *)
Definition numel (sz : list nat) : nat := foldr Nat.mul 1 sz.

(** All multi-indices of a shape, in row-major order. *)
Fixpoint indices (sz : list nat) : list (list nat) :=
  match sz with
  | [] => [[]]
  | d :: ds => i ← seq 0 d; (cons i) <$> indices ds
  end.

(** Position of a multi-index in the storage, relative to the offset. *)
Definition lin (st idx : list nat) : nat := sum_list (zip_with Nat.mul idx st).

(** Strides of a freshly allocated (row-major, dense) Tensor. *)
Fixpoint contiguous (sz : list nat) : list nat :=
  match sz with
  | [] => []
  | _ :: ds => numel ds :: contiguous ds
  end.

(** The Tensor operations the notebook calls, recorded in the machine's
    trace when they run. *)
Inductive prim := OpT | OpMm | OpUnsqueeze | OpExpandAs | OpIadd | OpMul | OpSum.

Inductive exn := AttributeError | TypeError | IndexError | ValueError | RuntimeError.

Inductive outcome (A : Type) :=
  | Ok (a : A)
  | Raise (e : exn).
Arguments Ok {A} a.
Arguments Raise {A} e.

(** The context object [ctx] handed to [forward] and [backward]. *)
Record context (R : Type) := Context {
  to_save : list (option Tensor);
  needs_input_grad : list bool;
  constant : option R;
  materialize_grads : bool
}.
Arguments Context {R}.
Arguments to_save {R}.
Arguments needs_input_grad {R}.
Arguments constant {R}.
Arguments materialize_grads {R}.

(** Machine state: the storages, the context object of the invocation, and
    the trace of Tensor operations performed so far. *)
Record state (R : Type) := State {
  heap : gmap loc (list R);
  ctx : context R;
  trace : list prim
}.
Arguments State {R}.
Arguments heap {R}.
Arguments ctx {R}.
Arguments trace {R}.

(** Programs: a run ends in a state, with a value or with an exception
    raised; what was done before the exception stays done. *)
Definition M (R A : Type) : Type := state R → outcome A * state R.

Definition raise {R A} (e : exn) : M R A := λ σ, (Raise e, σ).

#[global] Instance M_ret {R} : MRet (M R) := λ A a σ, (Ok a, σ).

#[global] Instance M_bind {R} : MBind (M R) := λ A B k m σ,
  match m σ with
  | (Ok a, σ') => k a σ'
  | (Raise e, σ') => (Raise e, σ')
  end.

Definition get_heap {R} : M R (gmap loc (list R)) := λ σ, (Ok (heap σ), σ).
Definition get_ctx {R} : M R (context R) := λ σ, (Ok (ctx σ), σ).
Definition set_ctx {R} (c : context R) : M R unit :=
  λ σ, (Ok tt, State (heap σ) c (trace σ)).
Definition tick {R} (p : prim) : M R unit :=
  λ σ, (Ok tt, State (heap σ) (ctx σ) (trace σ ++ [p])).

Module Torch.
Section Torch.
Context {R : Type} `{Scalar R}.

(** Element of [x] at a multi-index.  A Tensor made by the operations below
    always lies inside its storage; a handle that does not reads [R0]. *)
Definition get (h : gmap loc (list R)) (x : Tensor) (idx : list nat) : R :=
  default R0 (h !! base x ≫= (.!! (offset x + lin (strides x) idx))).

(** Allocate a dense Tensor of shape [sz] whose element at [idx] is
    [f idx], in a storage not in use. *)
Definition new_tensor (sz : list nat) (f : list nat → R) : M R Tensor :=
  λ σ, let l := fresh (dom (heap σ)) in
       (Ok (MkTensor l 0 (zip sz (contiguous sz))),
        State (<[l := f <$> indices sz]> (heap σ)) (ctx σ) (trace σ)).

(** Store [vals] into the elements of [x], in row-major order. *)
Definition write_all (x : Tensor) (vals : list R) (s : list R) : list R :=
  foldl (λ s p, <[offset x + lin (strides x) p.1 := p.2]> s) s
        (zip (indices (sizes x)) vals).

Definition set_elems (x : Tensor) (vals : list R) : M R unit :=
  λ σ, (Ok tt, State (alter (write_all x vals) (base x) (heap σ)) (ctx σ) (trace σ)).

(** Sum of [f l * g l] for [l < k], accumulated from [R0]. *)
Definition dot (k : nat) (f g : nat → R) : R :=
  foldl (λ acc l, Radd acc (Rmul (f l) (g l))) R0 (seq 0 k).

(** [x.t()]: dimensions 0 and 1 swapped, as a view; tensors of fewer than
    two dimensions are returned as they are, more than two is an error. *)
Definition t (x : Tensor) : M R Tensor :=
  tick OpT;;
  match dims x with
  | [d0; d1] => mret (MkTensor (base x) (offset x) [d1; d0])
  | [] | [_] => mret x
  | _ => raise RuntimeError
  end.

(** [a.mm(b)]: both operands are matrices with matching inner size. *)
Definition mm (a b : Tensor) : M R Tensor :=
  tick OpMm;;
  match sizes a, sizes b with
  | [m; k], [k'; n] =>
      if decide (k = k') then
        h ← get_heap;
        new_tensor [m; n] (λ idx,
          match idx with
          | [i; j] => dot k (λ l, get h a [i; l]) (λ l, get h b [l; j])
          | _ => R0
          end)
      else raise RuntimeError
  | _, _ => raise RuntimeError
  end.

(** [x.unsqueeze(0)]: a view with a leading dimension of size 1. *)
Definition unsqueeze0 (x : Tensor) : M R Tensor :=
  tick OpUnsqueeze;;
  let s := match dims x with
           | (d, s) :: _ => d * s
           | [] => 1
           end in
  mret (MkTensor (base x) (offset x) ((1, s) :: dims x)).

(** Broadcasting of dimensions to a target shape, aligned at the last
    dimension; both lists are given last dimension first. *)
Fixpoint expand_rev (ds : list (nat * nat)) (tgt : list nat)
    : option (list (nat * nat)) :=
  match tgt with
  | [] => match ds with [] => Some [] | _ :: _ => None end
  | n :: tgt' =>
      match ds with
      | [] => ((n, 0) ::.) <$> expand_rev [] tgt'
      | (d, s) :: ds' =>
          if decide (d = n) then ((n, s) ::.) <$> expand_rev ds' tgt'
          else if decide (d = 1) then ((n, 0) ::.) <$> expand_rev ds' tgt'
          else None
      end
  end.

Definition expand (x : Tensor) (sz : list nat) : M R Tensor :=
  match expand_rev (reverse (dims x)) (reverse sz) with
  | Some ds => mret (MkTensor (base x) (offset x) (reverse ds))
  | None => raise RuntimeError
  end.

(** [x.expand_as(other)] *)
Definition expand_as (x other : Tensor) : M R Tensor :=
  tick OpExpandAs;; expand x (sizes other).

(** [x += other]: [other] is broadcast to the shape of [x], the sums are
    computed and stored into the elements of [x]; the result is [x]. *)
Definition iadd (x other : Tensor) : M R Tensor :=
  tick OpIadd;;
  o ← expand other (sizes x);
  h ← get_heap;
  set_elems x ((λ idx, Radd (get h x idx) (get h o idx)) <$> indices (sizes x));;
  mret x.

(** [x * c] for a number [c]: a new Tensor. *)
Definition mul (x : Tensor) (c : R) : M R Tensor :=
  tick OpMul;;
  h ← get_heap;
  new_tensor (sizes x) (λ idx, Rmul (get h x idx) c).

(** [x.sum(0)]: a new Tensor, dimension 0 summed out. *)
Definition sum0 (x : Tensor) : M R Tensor :=
  tick OpSum;;
  h ← get_heap;
  match sizes x with
  | d :: ds =>
      new_tensor ds (λ idx, foldl (λ acc i, Radd acc (get h x (i :: idx))) R0 (seq 0 d))
  | [] => new_tensor [] (λ idx, get h x idx)
  end.
End Torch.
End Torch.

(** ** Python-level helpers *)

Section Python.
Context {R : Type}.

(** The receiver of a method call: [None] has no Tensor methods. *)
Definition self_of (o : option Tensor) : M R Tensor :=
  match o with
  | Some x => mret x
  | None => raise AttributeError
  end.

(** A Tensor argument of a Tensor method: [None] is rejected. *)
Definition arg_of (o : option Tensor) : M R Tensor :=
  match o with
  | Some x => mret x
  | None => raise TypeError
  end.

(** [a, b, c = l] *)
Definition unpack3 {A} (l : list A) : M R (A * A * A) :=
  match l with
  | [a; b; c] => mret (a, b, c)
  | _ => raise ValueError
  end.

(** [ctx.save_for_backward(...)] *)
Definition save_for_backward (l : list (option Tensor)) : M R unit :=
  c ← get_ctx;
  set_ctx (Context l (needs_input_grad c) (constant c) (materialize_grads c)).

(** [ctx.saved_tensors] *)
Definition saved_tensors : M R (list (option Tensor)) :=
  c ← get_ctx; mret (to_save c).

(** [ctx.needs_input_grad[i]] *)
Definition needs_input_grad_at (i : nat) : M R bool :=
  c ← get_ctx;
  match needs_input_grad c !! i with
  | Some b => mret b
  | None => raise IndexError
  end.

(** [ctx.constant = v] *)
Definition set_constant (v : R) : M R unit :=
  c ← get_ctx;
  set_ctx (Context (to_save c) (needs_input_grad c) (Some v) (materialize_grads c)).

(** [ctx.constant]: an attribute that was never set is an error. *)
Definition get_constant : M R R :=
  c ← get_ctx;
  match constant c with
  | Some v => mret v
  | None => raise AttributeError
  end.

(** [ctx.set_materialize_grads(b)] *)
Definition set_materialize_grads (b : bool) : M R unit :=
  c ← get_ctx;
  set_ctx (Context (to_save c) (needs_input_grad c) (constant c) b).
End Python.

(** [o * c] for a value [o] that is a Tensor or [None], and a number [c]. *)
Definition py_mul `{Scalar R} (o : option Tensor) (c : R) : M R Tensor :=
  match o with
  | Some x => Torch.mul x c
  | None => raise TypeError
  end.

(** ** The notebook's functions *)

Module LinearFunction.
Section LinearFunction.
Context `{Scalar R}.

Definition forward (input weight bias : option Tensor) : M R Tensor :=
  save_for_backward [input; weight; bias];;
  output ← (i ← self_of input;
            w ← self_of weight;
            wt ← Torch.t w;
            Torch.mm i wt);
  output ← match bias with
           | Some b =>
               u ← Torch.unsqueeze0 b;
               e ← Torch.expand_as u output;
               Torch.iadd output e
           | None => mret output
           end;
  mret output.

Definition backward (grad_output : option Tensor) : M R (list (option Tensor)) :=
  saved ← saved_tensors;
  '(input, weight, bias) ← unpack3 saved;
  let grad_input := None in
  let grad_weight := None in
  let grad_bias := None in
  n0 ← needs_input_grad_at 0;
  grad_input ← (if n0 : bool then
                  g ← self_of grad_output;
                  w ← arg_of weight;
                  r ← Torch.mm g w;
                  mret (Some r)
                else mret grad_input);
  n1 ← needs_input_grad_at 1;
  grad_weight ← (if n1 : bool then
                   g ← self_of grad_output;
                   gt ← Torch.t g;
                   i ← arg_of input;
                   r ← Torch.mm gt i;
                   mret (Some r)
                 else mret grad_weight);
  n2 ← match bias with
       | Some _ => needs_input_grad_at 2
       | None => mret false
       end;
  grad_bias ← (if n2 : bool then
                 g ← self_of grad_output;
                 r ← Torch.sum0 g;
                 mret (Some r)
               else mret grad_bias);
  mret [grad_input; grad_weight; grad_bias].
End LinearFunction.
End LinearFunction.

(** The second and third cells of the notebook define the same
    [MulConstant].  Its [constant] is the non-tensor argument, a number. *)
Module MulConstant.
Section MulConstant.
Context `{Scalar R}.

Definition forward (tensor : option Tensor) (constant : R) : M R Tensor :=
  set_constant constant;;
  py_mul tensor constant.

Definition backward (grad_output : option Tensor) : M R (list (option Tensor)) :=
  c ← get_constant;
  r ← py_mul grad_output c;
  mret [Some r; None].
End MulConstant.
End MulConstant.

(** The [MulConstant] of the fourth cell, which calls
    [ctx.set_materialize_grads(False)]. *)
Module MulConstantOpt.
Section MulConstantOpt.
Context `{Scalar R}.

Definition forward (tensor : option Tensor) (constant : R) : M R Tensor :=
  set_materialize_grads false;;
  set_constant constant;;
  py_mul tensor constant.

Definition backward (grad_output : option Tensor) : M R (list (option Tensor)) :=
  match grad_output with
  | None => mret [None; None]
  | Some _ =>
      c ← get_constant;
      r ← py_mul grad_output c;
      mret [Some r; None]
  end.
End MulConstantOpt.
End MulConstantOpt.

(** ** A concrete machine for running the functions

    Storage 0 holds a [2 × 3] matrix, storage 1 a [2 × 3] matrix, storage 2
    three numbers of which the last two serve as a bias vector, storage 3 a
    [2 × 2] matrix used as upstream gradient. *)

Definition ex_ctx : context Z := Context [] [true; false; true] None true.

Definition ex_state : state Z :=
  State {[ 0 := [1; 2; 3; 4; 5; 6]%Z; 1 := [1; 0; 0; 1; 1; 1]%Z;
           2 := [10; 20; 30]%Z; 3 := [1; 2; 3; 4]%Z ]} ex_ctx [].

Definition ex_input : Tensor := MkTensor 0 0 [(2, 3); (3, 1)].
Definition ex_weight : Tensor := MkTensor 1 0 [(2, 3); (3, 1)].
Definition ex_bias : Tensor := MkTensor 2 1 [(2, 1)].
Definition ex_grad : Tensor := MkTensor 3 0 [(2, 2); (2, 1)].

(** The state in which [backward] runs after a forward pass from
    [ex_state]. *)
Definition ex_after_linear : state Z :=
  (LinearFunction.forward (Some ex_input) (Some ex_weight) (Some ex_bias) ex_state).2.

Definition ex_after_linear_nobias : state Z :=
  (LinearFunction.forward (Some ex_input) (Some ex_weight) None ex_state).2.

Definition ex_after_mul : state Z :=
  (MulConstant.forward (Some ex_input) 3%Z ex_state).2.

Definition ex_after_mulopt : state Z :=
  (MulConstantOpt.forward (Some ex_input) 3%Z ex_state).2.

(** Storages for a gradient check by hand: [ex_heap] holds the input,
    weight and bias of [ex_state] and, in storage 3, the unit gradient at
    [(0, 1)]; in [ex_heap_plus] and [ex_heap_minus] the element [(0, 1)] of
    the input is raised and lowered by 1. *)
Definition ex_heap : gmap loc (list Z) :=
  {[ 0 := [1; 2; 3; 4; 5; 6]%Z; 1 := [1; 0; 0; 1; 1; 1]%Z;
     2 := [10; 20; 30]%Z; 3 := [0; 1; 0; 0]%Z ]}.

Definition ex_heap_plus : gmap loc (list Z) :=
  <[0 := [1; 3; 3; 4; 5; 6]%Z]> ex_heap.

Definition ex_heap_minus : gmap loc (list Z) :=
  <[0 := [1; 1; 3; 4; 5; 6]%Z]> ex_heap.

(** ** Auxiliary notions for the proofs *)

Section Notions.
Context `{Scalar R}.

(** [preserves P m Q]: run from a state satisfying the invariant [P], the
    program [m] ends, whether it returns or raises, in a state satisfying
    [P], and a returned value satisfies [Q]. *)
Definition preserves (P : state R → Prop) {A} (m : M R A) (Q : A → Prop) : Prop :=
  ∀ σ, P σ → P (m σ).2 ∧ ∀ a, (m σ).1 = Ok a → Q a.

(** The storages of [h0] are all present with the contents they have in
    [h0]. *)
Definition holds (h0 : gmap loc (list R)) (σ : state R) : Prop := h0 ⊆ heap σ.

(** The context object is [c]. *)
Definition in_ctx (c : context R) (σ : state R) : Prop := ctx σ = c.

(** The state after an operation that allocates a tensor of shape [sz]
    filled by [f] and logs [p]. *)
Definition allocated (σ : state R) (p : prim) (sz : list nat) (f : list nat → R)
    : state R :=
  State (<[fresh (dom (heap σ)) := f <$> indices sz]> (heap σ)) (ctx σ)
        (trace σ ++ [p]).

(** The tensor such an operation returns. *)
Definition dense_at (σ : state R) (sz : list nat) : Tensor :=
  MkTensor (fresh (dom (heap σ))) 0 (zip sz (contiguous sz)).

(** The state with one more operation logged. *)
Definition logged (σ : state R) (p : prim) : state R :=
  State (heap σ) (ctx σ) (trace σ ++ [p]).

(** The state with one more storage. *)
Definition stored (σ : state R) (sz : list nat) (f : list nat → R) : state R :=
  State (<[fresh (dom (heap σ)) := f <$> indices sz]> (heap σ)) (ctx σ) (trace σ).

(** [y] is [x * c]: same shape, every element multiplied by [c]; [x] is
    read in [h] and [y] in [h']. *)
Definition scaled (h h' : gmap loc (list R)) (x y : Tensor) (c : R) : Prop :=
  sizes y = sizes x
  ∧ ∀ idx, Forall2 lt idx (sizes x) →
      Torch.get h' y idx = Rmul (Torch.get h x idx) c.

(** The tensor [x] reads the same storage with the same contents in [σ']
    as in [σ]. *)
Definition same_values (x : Tensor) (σ σ' : state R) : Prop :=
  heap σ' !! base x = heap σ !! base x
  ∧ ∀ idx, Torch.get (heap σ') x idx = Torch.get (heap σ) x idx.

(** Entry [(i, l)] of the product of the [m × n] matrix [g] with the
    [n × k] matrix [w]. *)
Definition grad_input_entry (h : gmap loc (list R)) (g w : Tensor)
    (n i l : nat) : R :=
  Torch.dot n (λ j, Torch.get h g [i; j]) (λ j, Torch.get h w [j; l]).

(** Entry [(j, l)] of the product of the transpose of the [m × n] matrix
    [g] with the [m × k] matrix [x]. *)
Definition grad_weight_entry (h : gmap loc (list R)) (g x : Tensor)
    (m j l : nat) : R :=
  Torch.dot m (λ i, Torch.get h g [i; j]) (λ i, Torch.get h x [i; l]).

(** Sum of column [j] of the [m × n] matrix [g]. *)
Definition grad_bias_entry (h : gmap loc (list R)) (g : Tensor) (m j : nat) : R :=
  foldl (λ acc i, Radd acc (Torch.get h g [i; j])) R0 (seq 0 m).

(** A gradient slot that holds a tensor holds one of the shape of the
    forward input [x] it stands for. *)
Definition shaped_like (slot : option (option Tensor)) (x : option Tensor) : Prop :=
  ∀ y, slot = Some (Some y) → ∃ x', x = Some x' ∧ sizes y = sizes x'.

(** The shapes of a linear call: an [m × k] input, an [n × k] weight, an
    optional bias of length [n], and an upstream gradient of the shape
    [m × n] of the output. *)
Definition conformable (input weight bias grad_output : option Tensor) : Prop :=
  ∃ x w g m k n,
    input = Some x ∧ weight = Some w ∧ grad_output = Some g
    ∧ sizes x = [m; k] ∧ sizes w = [n; k] ∧ sizes g = [m; n]
    ∧ ∀ b, bias = Some b → sizes b = [n].

(** The slot for an input: [None] when the input needs no gradient, else
    a tensor of shape [sz] whose entries, if the tensors read exist, are
    given by [entry]. *)
Definition slot_is (needed : bool) (slot : option Tensor) (sz : list nat)
    (ok : Prop) (entry : Tensor → Prop) : Prop :=
  if needed then ∃ y, slot = Some y ∧ sizes y = sz ∧ (ok → entry y)
  else slot = None.

(** A [backward] call as the autograd engine makes it: after a [forward]
    on conformable tensors, with one [needs_input_grad] flag per
    argument. *)
Definition engine_call (σ : state R) (grad_output : option Tensor) : Prop :=
  ∃ input weight bias,
    to_save (ctx σ) = [input; weight; bias]
    ∧ conformable input weight bias grad_output
    ∧ 2 ≤ length (needs_input_grad (ctx σ))
    ∧ (is_Some bias → 3 ≤ length (needs_input_grad (ctx σ))).

(** The program [m] returns, rather than raises, from [σ]. *)
Definition returns {A} (m : M R A) (σ : state R) : Prop :=
  ∃ a, (m σ).1 = Ok a.

(** An invariant that logging and allocation maintain; [F] is what it
    tells about a freshly allocated tensor. *)
Class Invariant (P : state R → Prop) (F : Tensor → Prop) := {
  inv_logged σ p : P σ → P (logged σ p);
  inv_stored σ sz f : P σ → P (stored σ sz f) ∧ F (dense_at σ sz)
}.

(** Entry [(i, j)] of the product of the [m × k] matrix [a] with the
    transpose of the [n × k] matrix [w], plus entry [j] of the bias when
    there is one: the linear operation as the specification words it. *)
Definition linear_entry (h : gmap loc (list R)) (a w : Tensor)
    (bias : option Tensor) (k i j : nat) : R :=
  let p := Torch.dot k (λ l, Torch.get h a [i; l]) (λ l, Torch.get h w [j; l]) in
  match bias with
  | Some b => Radd p (Torch.get h b [j])
  | None => p
  end.
End Notions.

(** Notions for the gradient check in exact arithmetic, over the
    integers. *)

Section ExactNotions.
Local Open Scope Z_scope.

(** [x] reads in [h'] what it reads in [h]. *)
Definition reads_same (h h' : gmap loc (list Z)) (x : Tensor) : Prop :=
  ∀ idx, Forall2 lt idx (sizes x) → Torch.get h' x idx = Torch.get h x idx.

(** [x] reads in [h'] what it reads in [h], but for the element at [p],
    which is larger by [ε]. *)
Definition reads_shifted (h h' : gmap loc (list Z)) (x : Tensor)
    (p : list nat) (ε : Z) : Prop :=
  ∀ idx, Forall2 lt idx (sizes x) →
    Torch.get h' x idx = Torch.get h x idx + (if decide (idx = p) then ε else 0).

(** [g] is the unit gradient at [p]: 1 there and 0 elsewhere. *)
Definition unit_at (h : gmap loc (list Z)) (g : Tensor) (p : list nat) : Prop :=
  ∀ idx, Forall2 lt idx (sizes g) →
    Torch.get h g idx = if decide (idx = p) then 1 else 0.
End ExactNotions.

(** Further concrete machines: the state after the linear forward pass
    with no input needing a gradient, and the starting state with every
    input needing one. *)
Definition ex_frozen : state Z :=
  State (heap ex_after_linear)
        (Context (to_save (ctx ex_after_linear)) [false; false; false] None true)
        (trace ex_after_linear).

Definition ex_state_all : state Z :=
  State (heap ex_state) (Context [] [true; true; true] None true) [].







(** A bias of length 1: the last element of storage 2. *)
Definition ex_bias_one : Tensor := MkTensor 2 2 [(1, 1)].

(** A weight whose rows have length 2, not the 3 of [ex_input]'s. *)
Definition ex_weight_narrow : Tensor := MkTensor 1 0 [(3, 2); (2, 1)].

Section FurtherNotions.
Context `{Scalar R}.

(** The operations [LinearFunction.backward] performs, given which
    gradients are needed. *)
Definition backward_ops (n0 n1 n2 : bool) : list prim :=
  (if n0 then [OpMm] else [])
  ++ (if n1 then [OpT; OpMm] else [])
  ++ (if n2 then [OpSum] else []).

(** Every tensor in the tuple lives in a storage that [σ] does not have. *)
Definition all_fresh (σ : state R) (grads : list (option Tensor)) : Prop :=
  ∀ i y, grads !! i = Some (Some y) → heap σ !! base y = None.
End FurtherNotions.

(** ** Row-major addressing *)

Section Addressing.

Lemma lin_cons s st i idx : lin (s :: st) (i :: idx) = i * s + lin st idx.
Proof. reflexivity. Qed.

Lemma seq_blocks N a d :
  (seq a d ≫= λ i, seq (i * N) N) = seq (a * N) (d * N).
Proof.
  revert a. induction d as [|d IH]; intros a; simpl; [done|].
  rewrite IH, seq_app. do 2 f_equal. lia.
Qed.

Lemma fmap_list_bind {A B C} (f : B → C) (g : A → list B) (l : list A) :
  f <$> (l ≫= g) = l ≫= λ x, f <$> g x.
Proof.
  induction l as [|x l IH]; [done|].
  rewrite !bind_cons, fmap_app, IH. done.
Qed.

(** The multi-indices of a dense tensor are stored at 0, 1, 2, ... *)
Lemma indices_lin sz : lin (contiguous sz) <$> indices sz = seq 0 (numel sz).
Proof.
  induction sz as [|d ds IH]; [done|].
  change (indices (d :: ds)) with (seq 0 d ≫= λ i, cons i <$> indices ds).
  change (seq 0 (numel (d :: ds))) with (seq (0 * numel ds) (d * numel ds)).
  rewrite <- seq_blocks, fmap_list_bind.
  apply list_bind_ext; [|done]. intros i.
  rewrite <- list_fmap_compose.
  replace (i * numel ds) with (i * numel ds + 0) by lia.
  rewrite <- fmap_add_seq, <- IH, <- list_fmap_compose.
  apply list_fmap_ext. intros p idx _. simpl. rewrite lin_cons. lia.
Qed.

Lemma indices_length sz : length (indices sz) = numel sz.
Proof. rewrite <- (length_fmap (lin (contiguous sz))), indices_lin. apply length_seq. Qed.

Lemma elem_of_indices sz idx : Forall2 lt idx sz → idx ∈ indices sz.
Proof.
  intros Hv. induction Hv as [|i d idx ds Hi _ IH]; simpl.
  - apply list_elem_of_singleton; done.
  - apply list_elem_of_bind. exists i. split.
    + apply list_elem_of_fmap. eauto.
    + apply elem_of_seq. lia.
Qed.

Lemma indices_lookup sz idx :
  Forall2 lt idx sz → indices sz !! lin (contiguous sz) idx = Some idx.
Proof.
  intros Hv. apply elem_of_indices, list_elem_of_lookup in Hv as [p Hp].
  assert (Hq : (lin (contiguous sz) <$> indices sz) !! p
               = Some (lin (contiguous sz) idx))
    by (rewrite list_lookup_fmap, Hp; done).
  rewrite indices_lin in Hq. apply lookup_seq in Hq as [-> _]. done.
Qed.

Lemma contiguous_length sz : length (contiguous sz) = length sz.
Proof. induction sz; simpl; congruence. Qed.

Lemma sizes_dense l sz : sizes (MkTensor l 0 (zip sz (contiguous sz))) = sz.
Proof. apply fst_zip. rewrite contiguous_length. done. Qed.

Lemma strides_dense l sz :
  strides (MkTensor l 0 (zip sz (contiguous sz))) = contiguous sz.
Proof. apply snd_zip. rewrite contiguous_length. done. Qed.

(** Writing [vals] at positions [a, a+1, ...] of a list. *)
Lemma write_seq {A} (pre rest vals : list A) :
  length rest = length vals →
  foldl (λ s p, <[p.1 := p.2]> s) (pre ++ rest)
        (zip (seq (length pre) (length vals)) vals) = pre ++ vals.
Proof.
  revert pre rest. induction vals as [|v vals IH]; intros pre rest Hl.
  - destruct rest; [done|discriminate].
  - destruct rest as [|r rest]; [discriminate|]. simpl.
    replace (length pre) with (length pre + 0) at 1 by lia.
    rewrite insert_app_r. simpl.
    rewrite (cons_middle v pre vals), (cons_middle v pre rest), !app_assoc.
    specialize (IH (pre ++ [v]) rest).
    rewrite length_app in IH. simpl in IH.
    replace (length pre + 1) with (S (length pre)) in IH by lia.
    apply IH. simpl in Hl. lia.
Qed.
End Addressing.

(** ** Reading and writing dense tensors *)

Section Storage.
Context `{Scalar R}.
Implicit Types (h : gmap loc (list R)) (x : Tensor).

Lemma get_dense h l sz f idx :
  Forall2 lt idx sz →
  Torch.get (<[l := f <$> indices sz]> h)
            (MkTensor l 0 (zip sz (contiguous sz))) idx = f idx.
Proof.
  intros Hv. unfold Torch.get. rewrite strides_dense. simpl.
  rewrite lookup_insert_eq. simpl.
  rewrite list_lookup_fmap, indices_lookup by done. done.
Qed.

Lemma get_insert_ne h l s x idx :
  base x ≠ l → Torch.get (<[l := s]> h) x idx = Torch.get h x idx.
Proof. intros Hne. unfold Torch.get. rewrite lookup_insert_ne by done. done. Qed.

Lemma write_all_dense l sz vals (s : list R) :
  length s = numel sz → length vals = numel sz →
  Torch.write_all (MkTensor l 0 (zip sz (contiguous sz))) vals s = vals.
Proof.
  intros Hs Hvals. unfold Torch.write_all.
  rewrite sizes_dense, strides_dense. simpl.
  pose proof (write_seq [] s vals) as Hw. simpl in Hw.
  rewrite Hvals, <- indices_lin in Hw.
  etrans; [|apply Hw; lia]. clear Hw.
  clear Hs Hvals. generalize (indices sz). intros idxs. revert s vals.
  induction idxs as [|idx idxs IH]; intros s [|v vals]; try done.
  simpl. apply IH.
Qed.
End Storage.

(** ** Invariants of the operations *)

Section Preserving.
Context `{Scalar R}.
Implicit Types (P : state R → Prop) (σ : state R).

Lemma preserves_weaken P {A} (m : M R A) (Q Q' : A → Prop) :
  preserves P m Q → (∀ a, Q a → Q' a) → preserves P m Q'.
Proof. intros Hm HQ σ HP. destruct (Hm σ HP) as [? ?]. eauto. Qed.

Lemma preserves_pure P {A} (m : M R A) (Q : A → Prop) :
  (∀ σ, (m σ).2 = σ) → (∀ σ a, P σ → (m σ).1 = Ok a → Q a) →
  preserves P m Q.
Proof. intros Hs HQ σ HP. rewrite Hs. eauto. Qed.

Lemma preserves_ret P {A} (a : A) (Q : A → Prop) : Q a → preserves P (mret a) Q.
Proof. intros HQ. apply preserves_pure; [done|]. intros σ b _ [= <-]. done. Qed.

Lemma preserves_raise P {A} e (Q : A → Prop) : preserves P (raise e) Q.
Proof. apply preserves_pure; done. Qed.

Lemma preserves_bind P {A B} (m : M R A) (k : A → M R B) Q Q' :
  preserves P m Q → (∀ a, Q a → preserves P (k a) Q') → preserves P (m ≫= k) Q'.
Proof.
  intros Hm Hk σ HP. destruct (Hm σ HP) as [HP1 HQ].
  unfold mbind, M_bind. destruct (m σ) as [[a|e] σ1]; simpl in *; [|done].
  apply (Hk a (HQ a eq_refl) σ1 HP1).
Qed.

Lemma preserves_get_heap P : preserves P get_heap (λ _, True).
Proof. apply preserves_pure; done. Qed.

Lemma preserves_get_ctx P : preserves P get_ctx (λ _, True).
Proof. apply preserves_pure; done. Qed.

Lemma preserves_tick P F `{!Invariant P F} p : preserves P (tick p) (λ _, True).
Proof. intros σ HP. split; [|done]. by apply inv_logged. Qed.

Lemma preserves_new_tensor P F `{!Invariant P F} sz f :
  preserves P (Torch.new_tensor sz f) F.
Proof.
  intros σ HP. destruct (inv_stored σ sz f HP) as [HP' HF].
  split; [done|]. intros a [= <-]. done.
Qed.

(** The storages of [h0] survive logging and allocation, and a fresh
    tensor is not one of them. *)
#[global] Instance holds_invariant (h0 : gmap loc (list R)) :
  Invariant (holds h0) (λ y, h0 !! base y = None).
Proof.
  split; [done|]. intros σ sz f Hh. unfold holds in *.
  assert (Hnew : h0 !! fresh (dom (heap σ)) = None).
  { apply not_elem_of_dom. intros Hin.
    apply (is_fresh (dom (heap σ))). revert Hin. apply subseteq_dom. done. }
  split; [|done]. simpl. by apply insert_subseteq_r.
Qed.

#[global] Instance in_ctx_invariant (c : context R) :
  Invariant (in_ctx c) (λ _, True).
Proof. split; [done|]. intros σ sz f Hc. done. Qed.

Lemma holds_set_elems (h0 : gmap loc (list R)) x vals :
  h0 !! base x = None → preserves (holds h0) (Torch.set_elems x vals) (λ _, True).
Proof.
  intros Hx σ Hh. split; [|done]. unfold holds in *. simpl.
  apply map_subseteq_spec. intros l s Hl.
  rewrite lookup_alter_ne by congruence.
  by apply (lookup_weaken h0).
Qed.

Lemma holds_set_ctx (h0 : gmap loc (list R)) c :
  preserves (holds h0) (set_ctx c) (λ _, True).
Proof. intros σ Hh. done. Qed.
End Preserving.

Create HintDb preserves.
#[global] Hint Resolve preserves_ret preserves_raise preserves_new_tensor
  preserves_tick preserves_get_heap preserves_get_ctx holds_set_elems
  holds_set_ctx holds_invariant in_ctx_invariant : preserves.

(** One step of an invariant proof: split a sequence (first trying to
    forget the intermediate value), case on the scrutinee of a branch, or
    close a leaf with the rules known so far. *)
Ltac preserve_step :=
  cbv beta zeta in *; subst;
  first
    [ done
    | lazymatch goal with
      | |- preserves _ (mbind _ _) _ =>
          first
            [ eapply (preserves_bind _ _ _ (λ _, True));
              [solve [repeat preserve_step]|intros ? _]
            | eapply preserves_bind; [|intros ? ?] ]
      | |- preserves _ (match ?x with _ => _ end) _ => destruct x
      | |- preserves _ (mret ?a) ?Q =>
          tryif is_evar Q
          then (apply (preserves_ret _ a (λ y, y = a)); reflexivity)
          else apply preserves_ret
      | |- preserves _ (raise _) _ => apply preserves_raise
      | |- preserves _ _ ?Q =>
          tryif is_evar Q then solve [eauto with preserves]
          else (eapply preserves_weaken; [solve [eauto with preserves]|intros])
      end ].

Ltac preserve := repeat preserve_step.

Section PreservingOps.
Context `{Scalar R}.
Context (P : state R → Prop) (F : Tensor → Prop) `{!Invariant P F}.
Implicit Types (x : Tensor).

Lemma preserves_t x : preserves P (Torch.t x) (λ y, base y = base x).
Proof. unfold Torch.t. preserve. Qed.

Lemma preserves_unsqueeze0 x :
  preserves P (Torch.unsqueeze0 x) (λ y, base y = base x).
Proof. unfold Torch.unsqueeze0. preserve. Qed.

Lemma preserves_expand x sz : preserves P (Torch.expand x sz) (λ y, base y = base x).
Proof. unfold Torch.expand. preserve. Qed.

#[local] Hint Resolve preserves_expand : preserves.

Lemma preserves_expand_as x o :
  preserves P (Torch.expand_as x o) (λ y, base y = base x).
Proof. unfold Torch.expand_as. preserve. Qed.

Lemma preserves_mm a b : preserves P (Torch.mm a b) F.
Proof. unfold Torch.mm. preserve. Qed.

Lemma preserves_mul x c : preserves P (Torch.mul x c) F.
Proof. unfold Torch.mul. preserve. Qed.

Lemma preserves_sum0 x : preserves P (Torch.sum0 x) F.
Proof. unfold Torch.sum0. preserve. Qed.

#[local] Hint Resolve preserves_mul : preserves.

Lemma preserves_py_mul o c : preserves P (py_mul o c) F.
Proof. unfold py_mul. preserve. Qed.

Lemma preserves_self_of o : preserves P (self_of o) (λ y, o = Some y).
Proof. unfold self_of. preserve. Qed.

Lemma preserves_arg_of o : preserves P (arg_of o) (λ y, o = Some y).
Proof. unfold arg_of. preserve. Qed.

Lemma preserves_unpack3 {A} (l : list A) :
  preserves P (unpack3 l) (λ r, l = [r.1.1; r.1.2; r.2]).
Proof. unfold unpack3. preserve. Qed.
End PreservingOps.

#[global] Hint Resolve preserves_t preserves_unsqueeze0 preserves_expand
  preserves_expand_as preserves_mm preserves_mul preserves_sum0
  preserves_py_mul preserves_self_of preserves_arg_of preserves_unpack3
  : preserves.

(** ** Invariants of the context operations and of the notebook's functions *)

Section PreservingFunctions.
Context `{Scalar R}.
Context (h0 : gmap loc (list R)).
Implicit Types (c : context R).

Lemma holds_save_for_backward l :
  preserves (R:=R) (holds h0) (save_for_backward l) (λ _, True).
Proof. unfold save_for_backward. preserve. Qed.

Lemma holds_set_constant v : preserves (holds h0) (set_constant v) (λ _, True).
Proof. unfold set_constant. preserve. Qed.

Lemma holds_set_materialize_grads b :
  preserves (R:=R) (holds h0) (set_materialize_grads b) (λ _, True).
Proof. unfold set_materialize_grads. preserve. Qed.

Lemma in_ctx_saved_tensors c :
  preserves (in_ctx c) saved_tensors (λ l, l = to_save c).
Proof.
  intros σ Hc. unfold in_ctx in Hc. subst c. unfold saved_tensors, mbind, M_bind. simpl.
  split; [done|]. intros l [= <-]. done.
Qed.

Lemma in_ctx_needs_input_grad_at c i :
  preserves (in_ctx c) (needs_input_grad_at i)
            (λ b, needs_input_grad c !! i = Some b).
Proof.
  intros σ Hc. unfold in_ctx in Hc. subst c. unfold needs_input_grad_at, mbind, M_bind. simpl.
  destruct (needs_input_grad (ctx σ) !! i); simpl; split; try done.
  intros v [= <-]. done.
Qed.

Lemma in_ctx_get_constant c :
  preserves (in_ctx c) get_constant (λ v, constant c = Some v).
Proof.
  intros σ Hc. unfold in_ctx in Hc. subst c. unfold get_constant, mbind, M_bind. simpl.
  destruct (constant (ctx σ)); simpl; split; try done.
  intros v [= <-]. done.
Qed.

#[local] Hint Resolve holds_save_for_backward holds_set_constant
  holds_set_materialize_grads in_ctx_saved_tensors
  in_ctx_needs_input_grad_at in_ctx_get_constant : preserves.

(** Reading the context keeps any invariant. *)
Lemma preserves_saved_tensors (P : state R → Prop) :
  preserves P saved_tensors (λ _, True).
Proof. unfold saved_tensors. preserve. Qed.

Lemma preserves_needs_input_grad_at (P : state R → Prop) i :
  preserves P (needs_input_grad_at i) (λ _, True).
Proof. unfold needs_input_grad_at. preserve. Qed.

Lemma preserves_get_constant (P : state R → Prop) :
  preserves P get_constant (λ _, True).
Proof. unfold get_constant. preserve. Qed.

#[local] Hint Resolve preserves_saved_tensors preserves_needs_input_grad_at
  preserves_get_constant : preserves.

Lemma holds_iadd x o :
  h0 !! base x = None → preserves (holds h0) (Torch.iadd x o) (λ y, y = x).
Proof. intros Hx. unfold Torch.iadd. preserve. Qed.

#[local] Hint Resolve holds_iadd : preserves.

(** [forward] keeps every storage it finds, and its result is not one of
    them. *)
Lemma holds_linear_forward input weight bias :
  preserves (holds h0) (LinearFunction.forward input weight bias)
            (λ y, h0 !! base y = None).
Proof.
  unfold LinearFunction.forward.
  eapply preserves_bind; [eauto with preserves|intros _ _].
  eapply (preserves_bind _ _ _ (λ y, h0 !! base y = None)); [preserve|].
  intros output Hout.
  eapply (preserves_bind _ _ _ (λ y, y = output));
    [destruct bias|intros ? ->]; preserve.
Qed.

(** Every [backward] keeps every storage it finds. *)
Lemma holds_linear_backward grad_output :
  preserves (holds h0) (LinearFunction.backward grad_output) (λ _, True).
Proof. unfold LinearFunction.backward. preserve. Qed.

Lemma holds_mul_backward grad_output :
  preserves (holds h0) (MulConstant.backward grad_output) (λ _, True).
Proof. unfold MulConstant.backward. preserve. Qed.

Lemma holds_mulopt_backward grad_output :
  preserves (holds h0) (MulConstantOpt.backward grad_output) (λ _, True).
Proof. unfold MulConstantOpt.backward. preserve. Qed.

(** The tuple [LinearFunction.backward] returns: three slots, a slot
    being [None] when its input needs no gradient, and the last one also
    when no bias was saved. *)
Lemma in_ctx_linear_backward c grad_output :
  preserves (in_ctx c) (LinearFunction.backward grad_output)
    (λ grads, ∃ gi gw gb,
       grads = [gi; gw; gb]
       ∧ (needs_input_grad c !! 0 = Some false → gi = None)
       ∧ (needs_input_grad c !! 1 = Some false → gw = None)
       ∧ (needs_input_grad c !! 2 = Some false → gb = None)
       ∧ (to_save c !! 2 = Some None → gb = None)).
Proof.
  unfold LinearFunction.backward.
  eapply preserves_bind; [apply in_ctx_saved_tensors|]. intros saved ->.
  eapply preserves_bind; [apply preserves_unpack3|].
  intros [[input weight] bias] Hsaved. simpl in Hsaved. cbv zeta.
  eapply preserves_bind; [apply (in_ctx_needs_input_grad_at c 0)|]. intros n0 Hn0.
  eapply (preserves_bind _ _ _ (λ gi, n0 = false → gi = None)).
  { destruct n0; preserve. }
  intros gi Hgi.
  eapply preserves_bind; [apply (in_ctx_needs_input_grad_at c 1)|]. intros n1 Hn1.
  eapply (preserves_bind _ _ _ (λ gw, n1 = false → gw = None)).
  { destruct n1; preserve. }
  intros gw Hgw.
  eapply (preserves_bind _ _ _
            (λ n2 : bool, (bias = None → n2 = false)
                          ∧ (needs_input_grad c !! 2 = Some false → n2 = false))).
  { destruct bias.
    - eapply preserves_weaken; [apply (in_ctx_needs_input_grad_at c 2)|].
      intros n2 Hn2. split; [done|]. congruence.
    - preserve. }
  intros n2 [Hb2 Hn2].
  eapply (preserves_bind _ _ _ (λ gb, n2 = false → gb = None)).
  { destruct n2; preserve. }
  intros gb Hgb. apply preserves_ret.
  exists gi, gw, gb. split_and!; [done|..].
  - intros E. apply Hgi. congruence.
  - intros E. apply Hgw. congruence.
  - intros E. apply Hgb, Hn2, E.
  - rewrite Hsaved. simpl. intros [= ->]. apply Hgb, Hb2. done.
Qed.

Lemma in_ctx_mul_backward c grad_output :
  preserves (in_ctx c) (MulConstant.backward grad_output)
    (λ grads, ∃ r, grads = [Some r; None]).
Proof.
  unfold MulConstant.backward.
  eapply preserves_bind; [apply in_ctx_get_constant|]. intros v _.
  eapply preserves_bind; [apply (preserves_py_mul _ (λ _, True))|]. intros r _.
  apply preserves_ret. eauto.
Qed.

Lemma in_ctx_mulopt_backward c grad_output :
  preserves (in_ctx c) (MulConstantOpt.backward grad_output)
    (λ grads, ∃ gt, grads = [gt; None] ∧ (grad_output = None → gt = None)).
Proof.
  unfold MulConstantOpt.backward. destruct grad_output as [g|].
  - eapply preserves_bind; [apply in_ctx_get_constant|]. intros v _.
    eapply preserves_bind; [apply (preserves_py_mul _ (λ _, True))|]. intros r _.
    apply preserves_ret. by eexists.
  - apply preserves_ret. by eexists.
Qed.

Lemma in_ctx_set_elems c x vals :
  preserves (in_ctx c) (Torch.set_elems x vals) (λ _, True).
Proof. intros σ Hc. done. Qed.

#[local] Hint Resolve in_ctx_set_elems : preserves.

Lemma in_ctx_iadd c x o : preserves (in_ctx c) (Torch.iadd x o) (λ _, True).
Proof. unfold Torch.iadd. preserve. Qed.

#[local] Hint Resolve in_ctx_iadd : preserves.

(** [forward] leaves its three arguments saved on the context, whether it
    returns or raises. *)
Lemma linear_forward_saves σ input weight bias :
  to_save (ctx (LinearFunction.forward input weight bias σ).2)
  = [input; weight; bias].
Proof.
  unfold LinearFunction.forward.
  set (cs := Context [input; weight; bias] (needs_input_grad (ctx σ))
               (constant (ctx σ)) (materialize_grads (ctx σ))).
  set (σs := State (heap σ) cs (trace σ)).
  match goal with
  | |- context [mbind ?k (save_for_backward ?l)] =>
      assert (Hrest : preserves (in_ctx cs) (k tt) (λ _, True))
        by (destruct bias; preserve);
      change ((save_for_backward l ≫= k) σ) with (k tt σs)
  end.
  destruct (Hrest σs eq_refl) as [-> _]. done.
Qed.

Lemma holds_after {A} (m : M R A) Q σ :
  preserves (holds (heap σ)) m Q → holds (heap σ) (m σ).2.
Proof. intros Hm. apply Hm. unfold holds. done. Qed.

Lemma holds_same_values σ σ' x :
  holds (heap σ) σ' → is_Some (heap σ !! base x) → same_values x σ σ'.
Proof.
  intros Hh [s Hs]. assert (Hs' : heap σ' !! base x = Some s).
  { by apply (lookup_weaken (heap σ)). }
  split; [congruence|]. intros idx. unfold Torch.get. rewrite Hs, Hs'. done.
Qed.
End PreservingFunctions.

(** ** What the operations compute *)

Section Runs.
Context `{Scalar R}.
Implicit Types (σ : state R) (x g : Tensor).

Lemma get_allocated σ p sz f idx :
  Forall2 lt idx sz →
  Torch.get (heap (allocated σ p sz f)) (dense_at σ sz) idx = f idx.
Proof. apply get_dense. Qed.

Lemma mul_backward_run σ g c :
  constant (ctx σ) = Some c →
  MulConstant.backward (Some g) σ
  = (Ok [Some (dense_at σ (sizes g)); None],
     allocated σ OpMul (sizes g) (λ idx, Rmul (Torch.get (heap σ) g idx) c)).
Proof.
  intros Hc. unfold MulConstant.backward, get_constant, mbind, M_bind. simpl.
  rewrite Hc. destruct σ; reflexivity.
Qed.

Lemma mulopt_backward_present σ g :
  MulConstantOpt.backward (Some g) σ = MulConstant.backward (Some g) σ.
Proof. reflexivity. Qed.
End Runs.

(** ** Runs of the view and matrix operations *)

Section ViewRuns.
Context `{Scalar R}.
Implicit Types (σ : state R) (x : Tensor).

Lemma bind_run {A B} (m : M R A) (k : A → M R B) σ a σ' :
  m σ = (Ok a, σ') → (m ≫= k) σ = k a σ'.
Proof. intros Hm. unfold mbind, M_bind. rewrite Hm. done. Qed.

Lemma dot_ext k (f f' g g' : nat → R) :
  (∀ l, f l = f' l) → (∀ l, g l = g' l) → Torch.dot k f g = Torch.dot k f' g'.
Proof.
  intros Hf Hg. unfold Torch.dot. generalize (R0 : R). generalize (seq 0 k).
  intros ls. induction ls as [|l ls IH]; intros acc; simpl; [done|].
  rewrite Hf, Hg. apply IH.
Qed.

Lemma dot_ext_lt k (f f' g g' : nat → R) :
  (∀ l, l < k → f l = f' l) → (∀ l, l < k → g l = g' l) →
  Torch.dot k f g = Torch.dot k f' g'.
Proof.
  intros Hf Hg. unfold Torch.dot. generalize (R0 : R).
  assert (Hls : Forall (λ l, l < k) (seq 0 k)) by (apply Forall_seq; lia).
  revert Hls. generalize (seq 0 k).
  intros ls Hls. induction Hls as [|l ls Hl _ IH]; intros acc; simpl; [done|].
  rewrite Hf, Hg by done. apply IH.
Qed.

Lemma t_run σ l o d0 d1 :
  Torch.t (MkTensor l o [d0; d1]) σ = (Ok (MkTensor l o [d1; d0]), logged σ OpT).
Proof. reflexivity. Qed.

Lemma get_transposed (h : gmap loc (list R)) l o d0 d1 i j :
  Torch.get h (MkTensor l o [d1; d0]) [i; j]
  = Torch.get h (MkTensor l o [d0; d1]) [j; i].
Proof. unfold Torch.get, strides, lin. simpl. do 3 f_equal. lia. Qed.

Lemma mm_run σ a b m k n :
  sizes a = [m; k] → sizes b = [k; n] →
  Torch.mm a b σ
  = (Ok (dense_at σ [m; n]),
     allocated σ OpMm [m; n] (λ idx,
       match idx with
       | [i; j] => Torch.dot k (λ l, Torch.get (heap σ) a [i; l])
                                (λ l, Torch.get (heap σ) b [l; j])
       | _ => R0
       end)).
Proof.
  intros Ha Hb. unfold Torch.mm, mbind, M_bind. simpl. rewrite Ha, Hb.
  rewrite decide_True by done. reflexivity.
Qed.

Lemma sum0_run σ x d ds :
  sizes x = d :: ds →
  Torch.sum0 x σ
  = (Ok (dense_at σ ds),
     allocated σ OpSum ds (λ idx,
       foldl (λ acc i, Radd acc (Torch.get (heap σ) x (i :: idx))) R0 (seq 0 d))).
Proof.
  intros Hs. unfold Torch.sum0, mbind, M_bind. simpl. rewrite Hs. reflexivity.
Qed.

Lemma unsqueeze0_run σ l o d s :
  Torch.unsqueeze0 (MkTensor l o [(d, s)]) σ
  = (Ok (MkTensor l o [(1, d * s); (d, s)]), logged σ OpUnsqueeze).
Proof. reflexivity. Qed.

Lemma expand_rev_same (ds : list (nat * nat)) :
  Torch.expand_rev ds (ds.*1) = Some ds.
Proof.
  induction ds as [|[d s] ds IH]; csimpl; [done|].
  rewrite decide_True by done. rewrite IH. done.
Qed.

(** Expanding a tensor to its own shape gives the same view. *)
Lemma expand_same σ x : Torch.expand x (sizes x) σ = (Ok x, σ).
Proof.
  unfold Torch.expand, sizes. rewrite <- fmap_reverse, expand_rev_same.
  rewrite reverse_involutive. destruct x; reflexivity.
Qed.

(** Expanding a [1 × n] view to [m] rows: the row stride becomes 0, unless
    [m] is 1 and nothing changes. *)
Lemma expand_rows σ l o s1 n s m :
  Torch.expand (MkTensor l o [(1, s1); (n, s)]) [m; n] σ
  = (Ok (MkTensor l o [(m, if decide (1 = m) then s1 else 0); (n, s)]), σ).
Proof.
  unfold Torch.expand. simpl.
  destruct (decide (n = n)) as [_|]; [|done].
  destruct (decide (1 = m)); reflexivity.
Qed.

Lemma get_expanded_row (h : gmap loc (list R)) l o s1 n s m i j :
  i < m →
  Torch.get h (MkTensor l o [(m, if decide (1 = m) then s1 else 0); (n, s)]) [i; j]
  = Torch.get h (MkTensor l o [(n, s)]) [j].
Proof.
  intros Hi. unfold Torch.get, strides, lin. simpl. do 3 f_equal.
  destruct (decide (1 = m)); [|lia]. assert (i = 0) as -> by lia. lia.
Qed.

Lemma iadd_run σ x o :
  sizes o = sizes x →
  Torch.iadd x o σ
  = (Ok x,
     State (alter (Torch.write_all x
                     ((λ idx, Radd (Torch.get (heap σ) x idx) (Torch.get (heap σ) o idx))
                        <$> indices (sizes x)))
                  (base x) (heap σ))
           (ctx σ) (trace σ ++ [OpIadd])).
Proof.
  intros Hs. unfold Torch.iadd.
  rewrite (bind_run _ _ σ tt (logged σ OpIadd)) by done.
  rewrite (bind_run _ _ _ o (logged σ OpIadd)) by (rewrite <- Hs; apply expand_same).
  reflexivity.
Qed.
End ViewRuns.

(** ** The linear operation *)

Section Linear.
Context `{Scalar R}.
Implicit Types (σ : state R) (x : Tensor).

Lemma dims_matrix x m k :
  sizes x = [m; k] → ∃ s0 s1, dims x = [(m, s0); (k, s1)].
Proof.
  unfold sizes. destruct (dims x) as [|[? s0] [|[? s1] [|? ?]]]; intros [=]; subst.
  eauto.
Qed.

Lemma dims_vector x n : sizes x = [n] → ∃ s, dims x = [(n, s)].
Proof.
  unfold sizes. destruct (dims x) as [|[? s] [|? ?]]; intros [=]; subst. eauto.
Qed.

(** The product [input.mm(weight.t())] of the forward pass. *)
Lemma product_run σ a w m k n :
  sizes a = [m; k] → sizes w = [n; k] →
  ∃ f,
    (i ← self_of (Some a); w' ← self_of (Some w); wt ← Torch.t w'; Torch.mm i wt) σ
    = (Ok (dense_at σ [m; n]), allocated (logged σ OpT) OpMm [m; n] f)
    ∧ ∀ i j, f [i; j] = Torch.dot k (λ l, Torch.get (heap σ) a [i; l])
                                    (λ l, Torch.get (heap σ) w [j; l]).
Proof.
  intros Ha Hw. destruct (dims_matrix _ _ _ Hw) as (s0 & s1 & Hd).
  destruct w as [lw ow dw]. simpl in Hd. subst dw.
  eexists. split.
  - rewrite (bind_run _ _ σ a σ) by done.
    rewrite (bind_run _ _ σ _ σ) by done.
    rewrite (bind_run _ _ σ _ _ (t_run _ _ _ _ _)).
    rewrite (mm_run _ _ _ m k n) by done. reflexivity.
  - intros i j. simpl. apply dot_ext; [done|]. intros l. apply get_transposed.
Qed.

(** The in-place addition of the broadcast bias to the fresh product. *)
Lemma bias_add_run σ p m n f b :
  sizes b = [n] → is_Some (heap σ !! base b) →
  ∃ σ',
    (u ← Torch.unsqueeze0 b;
     e ← Torch.expand_as u (dense_at σ [m; n]);
     Torch.iadd (dense_at σ [m; n]) e) (allocated σ p [m; n] f)
    = (Ok (dense_at σ [m; n]), σ')
    ∧ ∀ i j, i < m → j < n →
        Torch.get (heap σ') (dense_at σ [m; n]) [i; j]
        = Radd (f [i; j]) (Torch.get (heap σ) b [j]).
Proof.
  intros Hb Hal. destruct (dims_vector _ _ Hb) as (s & Hd).
  destruct b as [lb ob db]. simpl in Hd, Hal. subst db.
  set (σ1 := allocated σ p [m; n] f).
  set (out := dense_at σ [m; n]).
  set (e := MkTensor lb ob [(m, if decide (1 = m) then n * s else 0); (n, s)]).
  assert (Hout : sizes out = [m; n]) by apply sizes_dense.
  eexists. split.
  - rewrite (bind_run _ _ σ1 _ _ (unsqueeze0_run _ _ _ _ _)).
    rewrite (bind_run _ _ _ e (logged (logged σ1 OpUnsqueeze) OpExpandAs)).
    2:{ unfold Torch.expand_as.
        rewrite (bind_run _ _ _ tt (logged (logged σ1 OpUnsqueeze) OpExpandAs)) by done.
        rewrite Hout. apply expand_rows. }
    rewrite iadd_run by (rewrite Hout; done). reflexivity.
  - intros i j Hi Hj. cbn [heap logged σ1 allocated].
    rewrite alter_insert_eq.
    rewrite Hout. unfold out, dense_at.
    rewrite write_all_dense.
    2:{ rewrite length_fmap. apply indices_length. }
    2:{ rewrite length_fmap. apply indices_length. }
    rewrite (get_dense _ _ [m; n] _ [i; j]) by (repeat constructor; done).
    f_equal.
    + apply (get_dense _ _ [m; n] f [i; j]). repeat constructor; done.
    + rewrite get_insert_ne.
      * apply (get_expanded_row _ lb ob (n * s) n s m i j Hi).
      * simpl. intros ->. apply (is_fresh (dom (heap σ))). by apply elem_of_dom.
Qed.
End Linear.

(** ** Shapes of the gradients *)

Section Shapes.
Context `{Scalar R}.
Implicit Types (σ : state R) (x y : Tensor).

Lemma mm_sizes σ a b y σ' :
  Torch.mm a b σ = (Ok y, σ') →
  ∃ m k n, sizes a = [m; k] ∧ sizes b = [k; n] ∧ sizes y = [m; n].
Proof.
  unfold Torch.mm, mbind, M_bind. simpl.
  destruct (sizes a) as [|m [|k [|? ?]]]; try done.
  destruct (sizes b) as [|k' [|n [|? ?]]]; try done.
  destruct (decide (k = k')) as [<-|]; [|done].
  intros [= <- _]. exists m, k, n. split_and!; try done; apply sizes_dense.
Qed.

Lemma t_sizes σ x y σ' :
  Torch.t x σ = (Ok y, σ') → ∀ a b, sizes y = [a; b] → sizes x = [b; a].
Proof.
  unfold Torch.t, mbind, M_bind, sizes. simpl.
  destruct (dims x) as [|[a0 s0] [|[a1 s1] [|? ?]]] eqn:Hd; simpl; try done;
    intros [= <- _] a b; rewrite ?Hd; simpl; congruence.
Qed.

Lemma sum0_sizes σ x y σ' :
  Torch.sum0 x σ = (Ok y, σ') → sizes y = tail (sizes x).
Proof.
  unfold Torch.sum0, mbind, M_bind. simpl.
  destruct (sizes x) as [|d ds]; intros [= <- _]; [done|apply sizes_dense].
Qed.

(** A fact about the returned value joins what an invariant proof
    tells. *)
Lemma preserves_result (P : state R → Prop) {A} (m : M R A) (Q Q' : A → Prop) :
  preserves P m Q → (∀ σ a σ', m σ = (Ok a, σ') → Q' a) →
  preserves P m (λ a, Q a ∧ Q' a).
Proof.
  intros Hm HQ' σ HP. destruct (Hm σ HP) as [HP' HQ]. split; [done|].
  intros a Ha. split; [by apply HQ|].
  apply (HQ' σ a (m σ).2). rewrite <- Ha. by destruct (m σ).
Qed.

Lemma in_ctx_mm_sizes (c : context R) a b :
  preserves (in_ctx c) (Torch.mm a b)
    (λ y, ∃ m k n, sizes a = [m; k] ∧ sizes b = [k; n] ∧ sizes y = [m; n]).
Proof.
  eapply preserves_weaken.
  - apply preserves_result; [apply (preserves_mm _ (λ _, True))|].
    intros σ y σ'. apply mm_sizes.
  - intros y [_ Hy]. exact Hy.
Qed.

Lemma in_ctx_t_sizes (c : context R) x :
  preserves (in_ctx c) (Torch.t x) (λ y, ∀ a b, sizes y = [a; b] → sizes x = [b; a]).
Proof.
  eapply preserves_weaken.
  - apply preserves_result; [apply (preserves_t _ (λ _, True))|].
    intros σ y σ' Hr. exact (t_sizes σ x y σ' Hr).
  - intros y [_ Hy]. exact Hy.
Qed.

Lemma in_ctx_sum0_sizes (c : context R) x :
  preserves (in_ctx c) (Torch.sum0 x) (λ y, sizes y = tail (sizes x)).
Proof.
  eapply preserves_weaken.
  - apply preserves_result; [apply (preserves_sum0 _ (λ _, True))|].
    intros σ y σ'. apply sum0_sizes.
  - intros y [_ Hy]. exact Hy.
Qed.

(** The shapes of the tensors [LinearFunction.backward] returns. *)
Lemma in_ctx_linear_backward_shapes (c : context R) input weight bias grad_output :
  to_save c = [input; weight; bias] →
  preserves (in_ctx c) (LinearFunction.backward grad_output)
    (λ grads, ∃ gi gw gb,
       grads = [gi; gw; gb]
       ∧ (∀ y, gi = Some y →
            ∃ g w m n k, grad_output = Some g ∧ weight = Some w
              ∧ sizes g = [m; n] ∧ sizes w = [n; k] ∧ sizes y = [m; k])
       ∧ (∀ y, gw = Some y →
            ∃ g x m n k, grad_output = Some g ∧ input = Some x
              ∧ sizes g = [m; n] ∧ sizes x = [m; k] ∧ sizes y = [n; k])
       ∧ (∀ y, gb = Some y →
            ∃ g, grad_output = Some g ∧ sizes y = tail (sizes g))).
Proof.
  intros Hsaved. unfold LinearFunction.backward.
  eapply preserves_bind; [apply in_ctx_saved_tensors|]. intros saved ->.
  rewrite Hsaved. simpl. cbv zeta.
  eapply preserves_bind; [apply (preserves_ret _ _ (λ r, r = (input, weight, bias))); done|].
  intros ? ->.
  eapply preserves_bind; [apply (preserves_needs_input_grad_at _ 0)|]. intros n0 _.
  eapply (preserves_bind _ _ _ (λ gi, ∀ y, gi = Some y →
            ∃ g w m n k, grad_output = Some g ∧ weight = Some w
              ∧ sizes g = [m; n] ∧ sizes w = [n; k] ∧ sizes y = [m; k])).
  { destruct n0; [|apply preserves_ret; done].
    eapply preserves_bind; [apply preserves_self_of|]. intros g ->.
    eapply preserves_bind; [apply preserves_arg_of|]. intros w ->.
    eapply preserves_bind; [apply in_ctx_mm_sizes|].
    intros r (m & n & k & Hg & Hw & Hr). apply preserves_ret.
    intros y [= <-]. exists g, w, m, n, k. done. }
  intros gi Hgi.
  eapply preserves_bind; [apply (preserves_needs_input_grad_at _ 1)|]. intros n1 _.
  eapply (preserves_bind _ _ _ (λ gw, ∀ y, gw = Some y →
            ∃ g x m n k, grad_output = Some g ∧ input = Some x
              ∧ sizes g = [m; n] ∧ sizes x = [m; k] ∧ sizes y = [n; k])).
  { destruct n1; [|apply preserves_ret; done].
    eapply preserves_bind; [apply preserves_self_of|]. intros g ->.
    eapply preserves_bind; [apply in_ctx_t_sizes|].
    intros gt Hgt.
    eapply preserves_bind; [apply preserves_arg_of|]. intros x ->.
    eapply preserves_bind; [apply in_ctx_mm_sizes|].
    intros r (n & m & k & Hg & Hx & Hr). apply preserves_ret.
    intros y [= <-]. exists g, x, m, n, k. split_and!; try done.
    by apply Hgt. }
  intros gw Hgw.
  eapply (preserves_bind _ _ _ (λ _, True)).
  { destruct bias; [apply preserves_needs_input_grad_at|by apply preserves_ret]. }
  intros n2 _.
  eapply (preserves_bind _ _ _ (λ gb, ∀ y, gb = Some y →
            ∃ g, grad_output = Some g ∧ sizes y = tail (sizes g))).
  { destruct n2; [|apply preserves_ret; done].
    eapply preserves_bind; [apply preserves_self_of|]. intros g ->.
    eapply preserves_bind; [apply in_ctx_sum0_sizes|].
    intros r Hr. apply preserves_ret.
    intros y [= <-]. exists g. done. }
  intros gb Hgb. apply preserves_ret. exists gi, gw, gb. done.
Qed.
End Shapes.

(** ** The gradients [LinearFunction.backward] computes *)

Section Gradients.
Context `{Scalar R}.
Implicit Types (σ : state R) (x y g w : Tensor).

Lemma holds_allocated σ p sz f : holds (heap σ) (allocated σ p sz f).
Proof.
  unfold holds. simpl. apply insert_subseteq, not_elem_of_dom, is_fresh.
Qed.

Lemma holds_trans σ σ1 σ2 :
  holds (heap σ) σ1 → holds (heap σ1) σ2 → holds (heap σ) σ2.
Proof. unfold holds. intros H1 H2. by trans (heap σ1). Qed.

Lemma dense_at_allocated σ p sz f :
  is_Some (heap (allocated σ p sz f) !! base (dense_at σ sz)).
Proof. simpl. rewrite lookup_insert_eq. eauto. Qed.

(** [grad_output.mm(weight)] *)
Lemma grad_input_run σ (n0 : bool) g w m n k :
  sizes g = [m; n] → sizes w = [n; k] →
  ∃ gi σ1,
    (if n0 then
       g' ← self_of (Some g); w' ← arg_of (Some w); r ← Torch.mm g' w';
       mret (Some r)
     else mret None) σ = (Ok gi, σ1)
    ∧ ctx σ1 = ctx σ ∧ holds (heap σ) σ1
    ∧ (n0 = false → gi = None)
    ∧ (n0 = true →
       ∃ y, gi = Some y ∧ sizes y = [m; k] ∧ is_Some (heap σ1 !! base y)
            ∧ ∀ i l, i < m → l < k →
                Torch.get (heap σ1) y [i; l] = grad_input_entry (heap σ) g w n i l).
Proof.
  intros Hg Hw. destruct n0.
  - eexists _, _. split.
    { rewrite (bind_run _ _ σ g σ) by done.
      rewrite (bind_run _ _ σ w σ) by done.
      rewrite (bind_run _ _ _ _ _ (mm_run σ g w m n k Hg Hw)). reflexivity. }
    split_and!; [done|apply holds_allocated|done|]. intros _.
    eexists. split_and!; [done|apply sizes_dense|apply dense_at_allocated|].
    intros i l Hi Hl.
    rewrite (get_allocated σ OpMm [m; k] _ [i; l]) by (repeat constructor; done).
    done.
  - eexists _, _. split; [reflexivity|]. split_and!; try done.
    unfold holds. done.
Qed.

(** [grad_output.t().mm(input)] *)
Lemma grad_weight_run σ (n1 : bool) g x m n k :
  sizes g = [m; n] → sizes x = [m; k] →
  ∃ gw σ1,
    (if n1 then
       g' ← self_of (Some g); gt ← Torch.t g'; i ← arg_of (Some x);
       r ← Torch.mm gt i; mret (Some r)
     else mret None) σ = (Ok gw, σ1)
    ∧ ctx σ1 = ctx σ ∧ holds (heap σ) σ1
    ∧ (n1 = false → gw = None)
    ∧ (n1 = true →
       ∃ y, gw = Some y ∧ sizes y = [n; k] ∧ is_Some (heap σ1 !! base y)
            ∧ ∀ j l, j < n → l < k →
                Torch.get (heap σ1) y [j; l] = grad_weight_entry (heap σ) g x m j l).
Proof.
  intros Hg Hx. destruct n1.
  - destruct (dims_matrix _ _ _ Hg) as (s0 & s1 & Hd).
    destruct g as [lg og dg]. simpl in Hd. subst dg.
    eexists _, _. split.
    { rewrite (bind_run _ _ σ _ σ) by done.
      rewrite (bind_run _ _ σ _ _ (t_run _ _ _ _ _)).
      rewrite (bind_run _ _ _ x (logged σ OpT)) by done.
      rewrite (bind_run _ _ _ _ _
                 (mm_run (logged σ OpT) (MkTensor lg og [(n, s1); (m, s0)]) x
                         n m k eq_refl Hx)).
      reflexivity. }
    split_and!; [done|apply (holds_allocated (logged σ OpT))|done|]. intros _.
    eexists. split_and!;
      [done|apply sizes_dense|apply (dense_at_allocated (logged σ OpT))|].
    intros j l Hj Hl.
    rewrite (get_allocated (logged σ OpT) OpMm [n; k] _ [j; l])
      by (repeat constructor; done).
    unfold grad_weight_entry. apply dot_ext; [|done].
    intros i. apply get_transposed.
  - eexists _, _. split; [reflexivity|]. split_and!; try done.
    unfold holds. done.
Qed.

(** [grad_output.sum(0)] *)
Lemma grad_bias_run σ (n2 : bool) g m n :
  sizes g = [m; n] →
  ∃ gb σ1,
    (if n2 then g' ← self_of (Some g); r ← Torch.sum0 g'; mret (Some r)
     else mret None) σ = (Ok gb, σ1)
    ∧ ctx σ1 = ctx σ ∧ holds (heap σ) σ1
    ∧ (n2 = false → gb = None)
    ∧ (n2 = true →
       ∃ y, gb = Some y ∧ sizes y = [n] ∧ is_Some (heap σ1 !! base y)
            ∧ ∀ j, j < n →
                Torch.get (heap σ1) y [j] = grad_bias_entry (heap σ) g m j).
Proof.
  intros Hg. destruct n2.
  - eexists _, _. split.
    { rewrite (bind_run _ _ σ g σ) by done.
      rewrite (bind_run _ _ _ _ _ (sum0_run σ g m [n] Hg)). reflexivity. }
    split_and!; [done|apply holds_allocated|done|]. intros _.
    eexists. split_and!; [done|apply sizes_dense|apply dense_at_allocated|].
    intros j Hj.
    rewrite (get_allocated σ OpSum [n] _ [j]) by (repeat constructor; done).
    done.
  - eexists _, _. split; [reflexivity|]. split_and!; try done.
    unfold holds. done.
Qed.

Lemma same_values_get σ σ' x idx :
  holds (heap σ) σ' → is_Some (heap σ !! base x) →
  Torch.get (heap σ') x idx = Torch.get (heap σ) x idx.
Proof. intros Hh Hal. by apply holds_same_values. Qed.

(** On a conformable call [LinearFunction.backward] returns, and each slot
    its input needs holds the matrix product, or column sum, of the
    analytic gradient. *)
Theorem linear_backward_gradients σ x w (bias : option Tensor) g
    (n0 n1 n2 : bool) m k n :
  to_save (ctx σ) = [Some x; Some w; bias] →
  needs_input_grad (ctx σ) !! 0 = Some n0 →
  needs_input_grad (ctx σ) !! 1 = Some n1 →
  (is_Some bias → needs_input_grad (ctx σ) !! 2 = Some n2) →
  sizes x = [m; k] → sizes w = [n; k] → sizes g = [m; n] →
  let allocated_inputs :=
    is_Some (heap σ !! base x) ∧ is_Some (heap σ !! base w)
    ∧ is_Some (heap σ !! base g) in
  ∃ gi gw gb σ',
    LinearFunction.backward (Some g) σ = (Ok [gi; gw; gb], σ')
    ∧ holds (heap σ) σ'
    ∧ slot_is n0 gi [m; k] allocated_inputs (λ y,
        ∀ i l, i < m → l < k →
          Torch.get (heap σ') y [i; l] = grad_input_entry (heap σ) g w n i l)
    ∧ slot_is n1 gw [n; k] allocated_inputs (λ y,
        ∀ j l, j < n → l < k →
          Torch.get (heap σ') y [j; l] = grad_weight_entry (heap σ) g x m j l)
    ∧ slot_is match bias with Some _ => n2 | None => false end gb [n]
        allocated_inputs (λ y,
          ∀ j, j < n →
            Torch.get (heap σ') y [j] = grad_bias_entry (heap σ) g m j).
Proof.
  intros Hsaved Hn0 Hn1 Hn2 Hx Hw Hg allocated_inputs.
  unfold LinearFunction.backward.
  rewrite (bind_run _ _ σ (to_save (ctx σ)) σ) by done.
  rewrite Hsaved.
  rewrite (bind_run _ _ σ (Some x, Some w, bias) σ) by done.
  cbv zeta.
  rewrite (bind_run _ _ σ n0 σ)
    by (unfold needs_input_grad_at, mbind, M_bind; simpl; rewrite Hn0; done).
  destruct (grad_input_run σ n0 g w m n k Hg Hw)
    as (gi & σ1 & Hrun1 & Hc1 & Hh1 & Hf1 & Ht1).
  rewrite (bind_run _ _ _ _ _ Hrun1).
  rewrite (bind_run _ _ σ1 n1 σ1)
    by (unfold needs_input_grad_at, mbind, M_bind; simpl; rewrite Hc1, Hn1; done).
  destruct (grad_weight_run σ1 n1 g x m n k Hg Hx)
    as (gw & σ2 & Hrun2 & Hc2 & Hh2 & Hf2 & Ht2).
  rewrite (bind_run _ _ _ _ _ Hrun2).
  set (n2' := match bias with Some _ => n2 | None => false end).
  rewrite (bind_run _ _ σ2 n2' σ2).
  2:{ subst n2'. destruct bias; [|done].
      unfold needs_input_grad_at, mbind, M_bind; simpl.
      rewrite Hc2, Hc1, Hn2 by eauto. done. }
  destruct (grad_bias_run σ2 n2' g m n Hg)
    as (gb & σ3 & Hrun3 & Hc3 & Hh3 & Hf3 & Ht3).
  rewrite (bind_run _ _ _ _ _ Hrun3).
  exists gi, gw, gb, σ3.
  assert (Hh12 : holds (heap σ) σ2) by (by apply (holds_trans σ σ1)).
  assert (Hh23 : holds (heap σ1) σ3) by (by apply (holds_trans σ1 σ2)).
  unfold slot_is.
  split_and!; [done|by apply (holds_trans σ σ2)|..].
  - destruct n0; [|by apply Hf1].
    destruct (Ht1 eq_refl) as (y & -> & Hy & Hay & Hv).
    exists y. split_and!; [done..|]. intros (Hax & Haw & Hag) i l Hi Hl.
    rewrite (same_values_get σ1 σ3) by done. by apply Hv.
  - destruct n1; [|by apply Hf2].
    destruct (Ht2 eq_refl) as (y & -> & Hy & Hay & Hv).
    exists y. split_and!; [done..|]. intros (Hax & Haw & Hag) j l Hj Hl.
    rewrite (same_values_get σ2 σ3) by done. rewrite Hv by done.
    unfold grad_weight_entry.
    apply dot_ext; intros i; apply same_values_get; done.
  - destruct n2'; [|by apply Hf3].
    destruct (Ht3 eq_refl) as (y & -> & Hy & Hay & Hv).
    exists y. split_and!; [done..|]. intros (Hax & Haw & Hag) j Hj.
    rewrite Hv by done. unfold grad_bias_entry.
    generalize (R0 : R). generalize (seq 0 m). intros ls.
    induction ls as [|i ls IH]; intros acc; simpl; [done|].
    rewrite (same_values_get σ σ2) by done. apply IH.
Qed.

Lemma linear_backward_returns σ grad_output :
  engine_call σ grad_output → returns (LinearFunction.backward grad_output) σ.
Proof.
  intros (input & weight & bias & Hsaved & Hconf & Hl2 & Hl3).
  destruct Hconf as (x & w & g & m & k & n & -> & -> & -> & Hx & Hw & Hg & _).
  destruct (lookup_lt_is_Some_2 (needs_input_grad (ctx σ)) 0) as [n0 Hn0]; [lia|].
  destruct (lookup_lt_is_Some_2 (needs_input_grad (ctx σ)) 1) as [n1 Hn1]; [lia|].
  assert (Hn2 : ∃ n2, is_Some bias → needs_input_grad (ctx σ) !! 2 = Some n2).
  { destruct bias as [b|].
    - destruct (lookup_lt_is_Some_2 (needs_input_grad (ctx σ)) 2) as [n2 Hn2];
        [apply Hl3; eauto|]. eauto.
    - exists false. intros [? [=]]. }
  destruct Hn2 as [n2 Hn2].
  destruct (linear_backward_gradients σ x w bias g n0 n1 n2 m k n
              Hsaved Hn0 Hn1 Hn2 Hx Hw Hg) as (gi & gw & gb & σ' & Hrun & _).
  exists [gi; gw; gb]. rewrite Hrun. done.
Qed.
End Gradients.

(** ** The gradient check in exact arithmetic

    Over the integers the linear operation is checked without rounding: the
    difference of the output entry [(i, j)] between an argument with one
    element raised by [ε] and the same argument with it lowered by [ε] is
    [2 * ε] times the entry that the analytic gradient, computed from the
    unit upstream gradient at [(i, j)], has for that element. *)

Section Exact.
Local Open Scope Z_scope.
Implicit Types (h : gmap loc (list Z)) (f g d : nat → Z).

Lemma dot_S (k : nat) f g : Torch.dot (S k) f g = Torch.dot k f g + f k * g k.
Proof. unfold Torch.dot. rewrite seq_S, foldl_app. reflexivity. Qed.

Lemma dot_add_l (k : nat) f d g :
  Torch.dot k (λ l, f l + d l) g = Torch.dot k f g + Torch.dot k d g.
Proof. induction k as [|k IH]; [reflexivity|]. rewrite !dot_S, IH. lia. Qed.


Lemma dot_zero_l (k : nat) f g :
  (∀ l, (l < k)%nat → f l = 0) → Torch.dot k f g = 0.
Proof.
  induction k as [|k IH]; intros Hf; [reflexivity|].
  rewrite dot_S, IH by (intros; apply Hf; lia). rewrite (Hf k) by lia. lia.
Qed.


(** A factor that is [ε] at one index [q] and 0 elsewhere picks the other
    factor at [q]. *)
Lemma dot_delta_l (k q : nat) (P : nat → Prop) `{∀ l, Decision (P l)} ε g :
  (q < k)%nat → (∀ l, P l ↔ l = q) →
  Torch.dot k (λ l, if decide (P l) then ε else 0) g = ε * g q.
Proof.
  intros Hq HP. induction k as [|k IH]; [lia|]. rewrite dot_S.
  destruct (decide (k = q)) as [->|Hne].
  - rewrite dot_zero_l.
    + rewrite decide_True by (by apply HP). lia.
    + intros l Hl. rewrite decide_False; [done|]. rewrite HP. lia.
  - rewrite IH by lia. rewrite decide_False; [lia|]. rewrite HP. done.
Qed.


Lemma dot_none_l (k : nat) (P : nat → Prop) `{∀ l, Decision (P l)} ε g :
  (∀ l, ¬ P l) → Torch.dot k (λ l, if decide (P l) then ε else 0) g = 0.
Proof. intros HP. apply dot_zero_l. intros l _. by rewrite decide_False. Qed.


(** The product part of an output entry when the input is shifted at
    [(p, q)]. *)
Lemma product_shifted_input h h' (a w : Tensor) (m n k i j p q : nat) ε :
  sizes a = [m; k] → sizes w = [n; k] →
  reads_shifted h h' a [p; q] ε → reads_same h h' w →
  (i < m)%nat → (j < n)%nat → (q < k)%nat →
  Torch.dot k (λ l, Torch.get h' a [i; l]) (λ l, Torch.get h' w [j; l])
  = Torch.dot k (λ l, Torch.get h a [i; l]) (λ l, Torch.get h w [j; l])
    + (if decide (i = p) then ε * Torch.get h w [j; q] else 0).
Proof.
  intros Hsa Hsw Ha Hw Hi Hj Hq.
  rewrite (dot_ext_lt k _ (λ l, Torch.get h a [i; l]
                               + (if decide ([i; l] = [p; q]) then ε else 0))
                        _ (λ l, Torch.get h w [j; l])).
  2:{ intros l Hl. apply Ha. rewrite Hsa. repeat constructor; done. }
  2:{ intros l Hl. apply Hw. rewrite Hsw. repeat constructor; done. }
  rewrite dot_add_l. f_equal.
  destruct (decide (i = p)) as [->|Hne].
  - apply (dot_delta_l k q (λ l, [p; l] = [p; q])); [done|].
    intros l. split; [by intros [= ->]|by intros ->].
  - apply (dot_none_l k (λ l, [i; l] = [p; q])). intros l [= ? ?]. done.
Qed.



(** The entry of the analytic input gradient for the unit upstream
    gradient at [(i, j)]. *)
Lemma grad_input_unit h (g w : Tensor) (m n i j p q : nat) :
  sizes g = [m; n] → unit_at h g [i; j] → (p < m)%nat → (j < n)%nat →
  grad_input_entry h g w n p q
  = if decide (i = p) then Torch.get h w [j; q] else 0.
Proof.
  intros Hsg Hg Hp Hj. unfold grad_input_entry.
  rewrite (dot_ext_lt n _ (λ j', if decide ([p; j'] = [i; j]) then 1 else 0)
                        _ (λ j', Torch.get h w [j'; q])); [| |done].
  2:{ intros l Hl. apply Hg. rewrite Hsg. repeat constructor; done. }
  destruct (decide (i = p)) as [->|Hne].
  - rewrite (dot_delta_l n j (λ j', [p; j'] = [p; j])); [lia|done|].
    intros l. split; [by intros [= ->]|by intros ->].
  - apply (dot_none_l n (λ j', [p; j'] = [i; j])). intros l [= ? ?]. done.
Qed.



(** The gradient check of the input: raising and lowering its element
    [(p, q)] by [ε]. *)
Theorem exact_gradient_input h hp hm (a w g : Tensor) (bias : option Tensor)
    (m n k i j p q : nat) ε :
  sizes a = [m; k] → sizes w = [n; k] → sizes g = [m; n] →
  (∀ b, bias = Some b → sizes b = [n]) →
  reads_shifted h hp a [p; q] ε → reads_shifted h hm a [p; q] (- ε) →
  reads_same h hp w → reads_same h hm w →
  (∀ b, bias = Some b → reads_same h hp b ∧ reads_same h hm b) →
  unit_at h g [i; j] →
  (i < m)%nat → (j < n)%nat → (p < m)%nat → (q < k)%nat →
  linear_entry hp a w bias k i j - linear_entry hm a w bias k i j
  = 2 * ε * grad_input_entry h g w n p q.
Proof.
  intros Hsa Hsw Hsg Hsb Hap Ham Hwp Hwm Hb Hg Hi Hj Hp Hq. unfold linear_entry.
  rewrite (product_shifted_input h hp a w m n k i j p q ε) by done.
  rewrite (product_shifted_input h hm a w m n k i j p q (- ε)) by done.
  rewrite (grad_input_unit h g w m n i j p q) by done.
  destruct bias as [b|].
  - destruct (Hb b eq_refl) as [Hbp Hbm]. simpl.
    rewrite Hbp, Hbm by (rewrite (Hsb b eq_refl); repeat constructor; done).
    case_decide; lia.
  - case_decide; lia.
Qed.


End Exact.

(** Every index of a small shape, one goal for each. *)
Ltac each_index idx Hv :=
  intros idx Hv; vm_compute in Hv;
  repeat match goal with
         | H : Forall2 _ _ (_ :: _) |- _ =>
             apply Forall2_cons_inv_r in H as (? & ? & ? & H & ->)
         | H : Forall2 _ _ [] |- _ => apply Forall2_nil_inv_r in H as ->
         end;
  repeat match goal with
         | H : S ?i ≤ 3 |- _ =>
             assert (i = 0 ∨ i = 1 ∨ i = 2) as [-> | [-> | ->]] by lia; clear H
         | H : S ?i ≤ 2 |- _ => assert (i = 0 ∨ i = 1) as [-> | ->] by lia; clear H
         end;
  reflexivity.

(** The gradient check by hand at the concrete storages: output entry
    [(0, 1)], input element [(0, 1)], step 1. *)
Example exact_gradient_input_example :
  (linear_entry ex_heap_plus ex_input ex_weight (Some ex_bias) 3 0 1
   - linear_entry ex_heap_minus ex_input ex_weight (Some ex_bias) 3 0 1
   = 2 * 1 * grad_input_entry ex_heap ex_grad ex_weight 2 0 1)%Z.
Proof.
  apply (exact_gradient_input ex_heap ex_heap_plus ex_heap_minus ex_input
           ex_weight ex_grad (Some ex_bias) 2 2 3 0 1 0 1 1%Z);
    try reflexivity; try lia.
  - intros b [= <-]. reflexivity.
  - each_index idx Hv.
  - each_index idx Hv.
  - each_index idx Hv.
  - each_index idx Hv.
  - intros b [= <-]. split; each_index idx Hv.
  - each_index idx Hv.
Qed.

(** ** The claims about [LinearFunction.forward] *)

Section LinearForward.
Context `{Scalar R}.
Implicit Types (σ : state R).

(** C1: for an input [a] of shape [m × k], a weight [w] of shape [n × k] and
    an optional bias of length [n], [LinearFunction.forward] returns a
    tensor of shape [m × n] whose entry [(i, j)] is the product of row [i]
    of [a] with row [j] of [w], plus entry [j] of the bias when one is
    given, and exactly that product when it is not. *)
Theorem C1_forward_linear σ (a w : Tensor) (bias : option Tensor) m k n :
  sizes a = [m; k] → sizes w = [n; k] →
  (∀ b, bias = Some b → sizes b = [n] ∧ is_Some (heap σ !! base b)) →
  ∃ out σ',
    LinearFunction.forward (Some a) (Some w) bias σ = (Ok out, σ')
    ∧ sizes out = [m; n]
    ∧ ∀ i j, i < m → j < n →
        Torch.get (heap σ') out [i; j] = linear_entry (heap σ) a w bias k i j.
Proof.
  intros Ha Hw Hbias. unfold LinearFunction.forward.
  set (σs := State (heap σ)
               (Context [Some a; Some w; bias] (needs_input_grad (ctx σ))
                        (constant (ctx σ)) (materialize_grads (ctx σ)))
               (trace σ)).
  rewrite (bind_run _ _ σ tt σs) by done.
  destruct (product_run σs a w m k n Ha Hw) as (f & Hrun & Hf).
  rewrite (bind_run _ _ _ _ _ Hrun).
  destruct bias as [b|].
  - destruct (Hbias b eq_refl) as [Hb Hal].
    change (dense_at σs [m; n]) with (dense_at (logged σs OpT) [m; n]).
    destruct (bias_add_run (logged σs OpT) OpMm m n f b Hb Hal) as (σ' & Hadd & Hget).
    rewrite (bind_run _ _ _ _ _ Hadd).
    eexists _, _. split_and!; [reflexivity|apply sizes_dense|].
    intros i j Hi Hj. rewrite Hget by done. unfold linear_entry.
    rewrite Hf. done.
  - eexists _, _. split_and!; [reflexivity|apply sizes_dense|].
    intros i j Hi Hj. unfold linear_entry. rewrite <- Hf.
    apply (get_allocated (logged σs OpT) OpMm [m; n] f [i; j]).
    repeat constructor; done.
Qed.
End LinearForward.

Lemma C1_forward_linear_witness :
  ∃ out σ',
    LinearFunction.forward (Some ex_input) (Some ex_weight) (Some ex_bias) ex_state
    = (Ok out, σ')
    ∧ sizes out = [2; 2]
    ∧ ∀ i j, i < 2 → j < 2 →
        Torch.get (heap σ') out [i; j]
        = linear_entry (heap ex_state) ex_input ex_weight (Some ex_bias) 3 i j.
Proof.
  apply (C1_forward_linear ex_state ex_input ex_weight (Some ex_bias) 2 3 2).
  - reflexivity.
  - reflexivity.
  - intros b [= <-]. split; [reflexivity|]. exists [10; 20; 30]%Z. reflexivity.
Defined.

(** ** The claims about the scalar multiplication *)

Section MulClaims.
Context `{Scalar R}.
Implicit Types (σ : state R) (g : Tensor).

Lemma mul_forward_constant σ tensor c :
  constant (ctx (MulConstant.forward tensor c σ).2) = Some c.
Proof. destruct tensor; reflexivity. Qed.

Lemma mulopt_forward_constant σ tensor c :
  constant (ctx (MulConstantOpt.forward tensor c σ).2) = Some c.
Proof. destruct tensor; reflexivity. Qed.

(** The pair a present gradient is turned into. *)
Lemma mul_backward_scaled σ g c :
  constant (ctx σ) = Some c →
  ∃ r σ',
    MulConstant.backward (Some g) σ = (Ok [Some r; None], σ')
    ∧ scaled (heap σ) (heap σ') g r c.
Proof.
  intros Hc. eexists _, _. split; [by apply mul_backward_run|].
  split; [apply sizes_dense|]. intros idx Hidx.
  apply (get_allocated σ OpMul (sizes g)
           (λ idx, Rmul (Torch.get (heap σ) g idx) c) idx Hidx).
Qed.

(** The slot for the constant is [None] in every tuple returned. *)
Lemma mul_backward_constant_slot σ grad_output grads :
  (MulConstant.backward grad_output σ).1 = Ok grads → grads !! 1 = Some None.
Proof.
  intros Hrun.
  destruct (in_ctx_mul_backward (ctx σ) grad_output σ eq_refl) as [_ Hq].
  destruct (Hq grads Hrun) as (r & ->). done.
Qed.

Lemma mulopt_backward_constant_slot σ grad_output grads :
  (MulConstantOpt.backward grad_output σ).1 = Ok grads → grads !! 1 = Some None.
Proof.
  intros Hrun.
  destruct (in_ctx_mulopt_backward (ctx σ) grad_output σ eq_refl) as [_ Hq].
  destruct (Hq grads Hrun) as (r & -> & _). done.
Qed.

(** With a constant on the context, [backward] returns on a present
    gradient, and the optimized one on an absent gradient too. *)
Lemma mul_backward_returns σ grad_output :
  is_Some (constant (ctx σ)) → is_Some grad_output →
  returns (MulConstant.backward grad_output) σ.
Proof.
  intros [c Hc] [g ->]. eexists. rewrite (mul_backward_run σ g c Hc). done.
Qed.

Lemma mulopt_backward_returns σ grad_output :
  is_Some (constant (ctx σ)) → returns (MulConstantOpt.backward grad_output) σ.
Proof.
  intros Hc. destruct grad_output as [g|].
  - unfold returns. rewrite mulopt_backward_present.
    apply mul_backward_returns; eauto.
  - by eexists.
Qed.

(** C3: with the constant [c] stored on the context by [forward], both
    definitions of [MulConstant.backward] turn an upstream gradient [g] into
    the pair [(g * c, None)]: the first slot is a tensor of the shape of
    [g] whose elements are those of [g] multiplied by [c], the second slot,
    for the non-tensor constant, is [None]; and that second slot is [None] in
    every tuple either [backward] returns. *)
Theorem C3_mul_backward_scales σ0 σ (tensor : option Tensor) (c : R) g :
  (constant (ctx σ) = constant (ctx (MulConstant.forward tensor c σ0).2) →
   ∃ r σ',
     MulConstant.backward (Some g) σ = (Ok [Some r; None], σ')
     ∧ scaled (heap σ) (heap σ') g r c)
  ∧ (constant (ctx σ) = constant (ctx (MulConstantOpt.forward tensor c σ0).2) →
     ∃ r σ',
       MulConstantOpt.backward (Some g) σ = (Ok [Some r; None], σ')
       ∧ scaled (heap σ) (heap σ') g r c)
  ∧ (∀ grad_output grads,
       (MulConstant.backward grad_output σ).1 = Ok grads
       ∨ (MulConstantOpt.backward grad_output σ).1 = Ok grads →
       grads !! 1 = Some None).
Proof.
  split_and!.
  - intros Hc. rewrite mul_forward_constant in Hc. by apply mul_backward_scaled.
  - intros Hc. rewrite mulopt_forward_constant in Hc.
    rewrite mulopt_backward_present. by apply mul_backward_scaled.
  - intros grad_output grads [Hrun|Hrun].
    + by apply (mul_backward_constant_slot σ grad_output).
    + by apply (mulopt_backward_constant_slot σ grad_output).
Qed.

(** C4: the [forward] of the optimized [MulConstant] switches gradient
    materialization off, and its [backward], given [None] as upstream
    gradient, returns [(None, None)] and leaves the machine as it found it:
    no storage is allocated and no operation, in particular no
    multiplication, is logged. *)
Theorem C4_mulopt_backward_none σ0 σ (tensor : option Tensor) (c : R) :
  materialize_grads (ctx (MulConstantOpt.forward tensor c σ0).2) = false
  ∧ MulConstantOpt.backward None σ = (Ok [None; None], σ)
  ∧ trace (MulConstantOpt.backward None σ).2 = trace σ.
Proof.
  split_and!.
  - destruct tensor; reflexivity.
  - reflexivity.
  - reflexivity.
Qed.

(** C8: on a present upstream gradient [g] the two definitions of
    [MulConstant] agree.  Run from states with the same storages, each with
    the constant its own [forward] stored, both [backward]s return the same
    pair [(g * c, None)] and leave the same storages.  On an absent gradient
    they differ: the plain one fails to multiply [None], the optimized one
    returns [(None, None)]. *)
Theorem C8_mul_variants_agree σ0 σ0' σa σb (tensor : option Tensor) (c : R) g :
  constant (ctx σa) = constant (ctx (MulConstant.forward tensor c σ0).2) →
  constant (ctx σb) = constant (ctx (MulConstantOpt.forward tensor c σ0').2) →
  heap σa = heap σb →
  (∃ r σa' σb',
     MulConstant.backward (Some g) σa = (Ok [Some r; None], σa')
     ∧ MulConstantOpt.backward (Some g) σb = (Ok [Some r; None], σb')
     ∧ heap σa' = heap σb'
     ∧ scaled (heap σa) (heap σa') g r c)
  ∧ MulConstant.backward None σa = (Raise TypeError, σa)
  ∧ MulConstantOpt.backward None σb = (Ok [None; None], σb).
Proof.
  intros Ha Hb Hh.
  rewrite mul_forward_constant in Ha. rewrite mulopt_forward_constant in Hb.
  split_and!.
  - eexists _, _, _. rewrite mulopt_backward_present.
    rewrite (mul_backward_run σa g c Ha), (mul_backward_run σb g c Hb).
    unfold dense_at, allocated. rewrite Hh.
    split_and!; [reflexivity|reflexivity|reflexivity|].
    split; [apply sizes_dense|]. intros idx Hidx. simpl.
    apply (get_dense _ _ (sizes g)
             (λ idx, Rmul (Torch.get (heap σb) g idx) c) idx Hidx).
  - unfold MulConstant.backward, get_constant, mbind, M_bind. simpl.
    rewrite Ha. done.
  - reflexivity.
Qed.
End MulClaims.

(** ** The claims about the gradient tuples *)

Section Tuples.
Context `{Scalar R}.
Implicit Types (σ : state R) (grads : list (option Tensor)).

(** C5: a slot of the tuple [LinearFunction.backward] returns is [None]
    when [ctx.needs_input_grad] is false at its index, and the slot both
    [MulConstant.backward]s return for the non-tensor constant is [None];
    on a call as the engine makes it, each [backward] does return. *)
Theorem C5_unneeded_slots_are_None σ (grad_output : option Tensor) :
  (∀ i grads, i < 3 →
     needs_input_grad (ctx σ) !! i = Some false →
     (LinearFunction.backward grad_output σ).1 = Ok grads →
     grads !! i = Some None)
  ∧ (∀ grads, (MulConstant.backward grad_output σ).1 = Ok grads →
       grads !! 1 = Some None)
  ∧ (∀ grads, (MulConstantOpt.backward grad_output σ).1 = Ok grads →
       grads !! 1 = Some None)
  ∧ (engine_call σ grad_output → returns (LinearFunction.backward grad_output) σ)
  ∧ (is_Some (constant (ctx σ)) → is_Some grad_output →
       returns (MulConstant.backward grad_output) σ)
  ∧ (is_Some (constant (ctx σ)) →
       returns (MulConstantOpt.backward grad_output) σ).
Proof.
  split_and!.
  - intros i grads Hi Hneeds Hrun.
    destruct (in_ctx_linear_backward (ctx σ) grad_output σ eq_refl) as [_ Hq].
    destruct (Hq grads Hrun) as (gi & gw & gb & -> & H0 & H1 & H2 & _).
    destruct i as [|[|[|i]]]; [| | |lia]; simpl; f_equal; auto.
  - apply mul_backward_constant_slot.
  - apply mulopt_backward_constant_slot.
  - apply linear_backward_returns.
  - apply mul_backward_returns.
  - apply mulopt_backward_returns.
Qed.

(** C6: every [backward] returns one slot per forward input, in the order
    of the inputs.  [LinearFunction.backward] returns three slots, and on a
    conformable call a tensor in slot 0, 1 or 2 has the shape of the input,
    the weight or the bias; both [MulConstant.backward]s return two slots,
    a tensor in slot 0 has the shape of the upstream gradient, which is
    that of the tensor input, and slot 1 is [None].  On a call as the engine
    makes it, each [backward] does return. *)
Theorem C6_one_slot_per_input σ (grad_output : option Tensor) grads :
  ((LinearFunction.backward grad_output σ).1 = Ok grads →
     length grads = 3
     ∧ ∀ input weight bias,
         to_save (ctx σ) = [input; weight; bias] →
         conformable input weight bias grad_output →
         shaped_like (grads !! 0) input
         ∧ shaped_like (grads !! 1) weight
         ∧ shaped_like (grads !! 2) bias)
  ∧ ((MulConstant.backward grad_output σ).1 = Ok grads →
       length grads = 2
       ∧ shaped_like (grads !! 0) grad_output
       ∧ grads !! 1 = Some None)
  ∧ ((MulConstantOpt.backward grad_output σ).1 = Ok grads →
       length grads = 2
       ∧ shaped_like (grads !! 0) grad_output
       ∧ grads !! 1 = Some None)
  ∧ (engine_call σ grad_output → returns (LinearFunction.backward grad_output) σ)
  ∧ (is_Some (constant (ctx σ)) → is_Some grad_output →
       returns (MulConstant.backward grad_output) σ)
  ∧ (is_Some (constant (ctx σ)) →
       returns (MulConstantOpt.backward grad_output) σ).
Proof.
  split_and!.
  - intros Hrun.
    destruct (in_ctx_linear_backward (ctx σ) grad_output σ eq_refl) as [_ Hq].
    destruct (Hq grads Hrun) as (gi & gw & gb & -> & _ & _ & _ & Hnob).
    split; [done|]. intros input weight bias Hsaved Hconf.
    destruct (in_ctx_linear_backward_shapes (ctx σ) input weight bias grad_output
                Hsaved σ eq_refl) as [_ Hs].
    destruct (Hs _ Hrun) as (gi' & gw' & gb' & [= <- <- <-] & Hgi & Hgw & Hgb).
    destruct Hconf as (x & w & g & m & k & n & -> & -> & -> & Hx & Hw & Hg & Hb).
    split_and!; intros y [= ->].
    + destruct (Hgi y eq_refl) as (? & ? & m' & n' & k' & [= <-] & [= <-] & E1 & E2 & E3).
      exists x. split; [done|]. congruence.
    + destruct (Hgw y eq_refl) as (? & ? & m' & n' & k' & [= <-] & [= <-] & E1 & E2 & E3).
      exists w. split; [done|]. congruence.
    + destruct (Hgb y eq_refl) as (? & [= <-] & E).
      destruct bias as [b|].
      * exists b. split; [done|]. rewrite (Hb b eq_refl), E, Hg. done.
      * rewrite Hsaved in Hnob. discriminate (Hnob eq_refl).
  - intros Hrun.
    unfold MulConstant.backward, get_constant, mbind, M_bind in Hrun. simpl in Hrun.
    destruct (constant (ctx σ)); [|done].
    destruct grad_output as [g|]; [|done]. simpl in Hrun.
    injection Hrun as <-. split_and!; [done| |done].
    intros y [= <-]. exists g. split; [done|]. apply sizes_dense.
  - intros Hrun.
    unfold MulConstantOpt.backward, get_constant, mbind, M_bind in Hrun.
    destruct grad_output as [g|]; simpl in Hrun.
    + destruct (constant (ctx σ)); [|done]. simpl in Hrun.
      injection Hrun as <-. split_and!; [done| |done].
      intros y [= <-]. exists g. split; [done|]. apply sizes_dense.
    + injection Hrun as <-. split_and!; done.
  - apply linear_backward_returns.
  - apply mul_backward_returns.
  - apply mulopt_backward_returns.
Qed.

(** C9: after a [forward] without bias, the third slot of the tuple
    [LinearFunction.backward] returns is [None], whatever
    [ctx.needs_input_grad] holds; on a call as the engine makes it,
    [backward] does return. *)
Theorem C9_no_bias_no_bias_gradient σ0 σ (input weight grad_output : option Tensor) :
  to_save (ctx σ)
  = to_save (ctx (LinearFunction.forward input weight None σ0).2) →
  (∀ grads, (LinearFunction.backward grad_output σ).1 = Ok grads →
     grads !! 2 = Some None)
  ∧ (engine_call σ grad_output → returns (LinearFunction.backward grad_output) σ).
Proof.
  intros Hsaved. split; [|apply linear_backward_returns].
  intros grads Hrun. rewrite linear_forward_saves in Hsaved.
  destruct (in_ctx_linear_backward (ctx σ) grad_output σ eq_refl) as [_ Hq].
  destruct (Hq grads Hrun) as (gi & gw & gb & -> & _ & _ & _ & Hnob).
  simpl. f_equal. apply Hnob. rewrite Hsaved. done.
Qed.
End Tuples.

(** ** The claims about mutation *)

Section Mutation.
Context `{Scalar R}.
Implicit Types (σ : state R) (x : Tensor).

(** C7: no [backward] changes the upstream gradient: the storage
    [grad_output] reads holds after the call, whether it returned or raised,
    what it held before, and so does every element of [grad_output]. *)
Theorem C7_backward_keeps_grad_output σ (grad_output : Tensor) :
  is_Some (heap σ !! base grad_output) →
  same_values grad_output σ (LinearFunction.backward (Some grad_output) σ).2
  ∧ same_values grad_output σ (MulConstant.backward (Some grad_output) σ).2
  ∧ same_values grad_output σ (MulConstantOpt.backward (Some grad_output) σ).2.
Proof.
  intros Hal. split_and!; (apply holds_same_values; [|done]).
  - eapply holds_after, holds_linear_backward.
  - eapply holds_after, holds_mul_backward.
  - eapply holds_after, holds_mulopt_backward.
Qed.

(** C10: [LinearFunction.forward] changes none of the tensors it finds:
    every allocated tensor [x], so the input, the weight and the bias,
    reads after the call, whether it returned or raised, the values it read
    before; the tensor returned lives in a storage of its own, where the
    bias was added in place. *)
Theorem C10_forward_keeps_inputs σ (input weight bias : option Tensor) x :
  is_Some (heap σ !! base x) →
  same_values x σ (LinearFunction.forward input weight bias σ).2
  ∧ ∀ out, (LinearFunction.forward input weight bias σ).1 = Ok out →
      base out ≠ base x ∧ heap σ !! base out = None.
Proof.
  intros Hal.
  destruct (holds_linear_forward (heap σ) input weight bias σ) as [Hh Hout];
    [unfold holds; done|].
  split; [by apply holds_same_values|].
  intros out Hrun. specialize (Hout out Hrun). simpl in Hout.
  split; [|done]. intros E. rewrite <- E, Hout in Hal. by destruct Hal.
Qed.
End Mutation.

(** ** The claims at the concrete machine *)

Example linear_forward_example :
  let r := LinearFunction.forward (Some ex_input) (Some ex_weight) (Some ex_bias)
             ex_state in
  r.1 = Ok (MkTensor 4 0 [(2, 2); (2, 1)])
  ∧ heap r.2 !! 4 = Some [21; 36; 24; 45]%Z
  ∧ trace r.2 = [OpT; OpMm; OpUnsqueeze; OpExpandAs; OpIadd].
Proof. vm_compute. done. Qed.

Example linear_backward_example :
  let r := LinearFunction.backward (Some ex_grad) ex_after_linear in
  r.1 = Ok [Some (MkTensor 5 0 [(2, 3); (3, 1)]); None;
            Some (MkTensor 6 0 [(2, 1)])]
  ∧ heap r.2 !! 5 = Some [3; 2; 2; 7; 4; 4]%Z
  ∧ heap r.2 !! 6 = Some [4; 6]%Z.
Proof. vm_compute. done. Qed.

Example mul_backward_example :
  let r := MulConstant.backward (Some ex_grad) ex_after_mul in
  r.1 = Ok [Some (MkTensor 5 0 [(2, 2); (2, 1)]); None]
  ∧ heap r.2 !! 5 = Some [3; 6; 9; 12]%Z.
Proof. vm_compute. done. Qed.

Example mul_backward_none_example :
  (MulConstant.backward None ex_after_mul).1 = Raise TypeError
  ∧ (MulConstantOpt.backward None ex_after_mulopt).1 = Ok [None; None].
Proof. vm_compute. done. Qed.

(** Facts about the concrete machine the witnesses share. *)

Lemma ex_conformable :
  conformable (Some ex_input) (Some ex_weight) (Some ex_bias) (Some ex_grad).
Proof.
  exists ex_input, ex_weight, ex_grad, 2, 3, 2.
  split_and!; try reflexivity. intros b [= <-]. reflexivity.
Defined.

Lemma ex_engine_call : engine_call ex_after_linear (Some ex_grad).
Proof.
  exists (Some ex_input), (Some ex_weight), (Some ex_bias).
  split_and!; [reflexivity|apply ex_conformable|vm_compute; lia|].
  intros _. vm_compute. lia.
Defined.

Lemma ex_engine_call_nobias : engine_call ex_after_linear_nobias (Some ex_grad).
Proof.
  exists (Some ex_input), (Some ex_weight), None.
  split_and!; [reflexivity| |vm_compute; lia|intros [? [=]]].
  exists ex_input, ex_weight, ex_grad, 2, 3, 2.
  split_and!; try reflexivity. intros b [=].
Defined.

Lemma ex_linear_backward :
  (LinearFunction.backward (Some ex_grad) ex_after_linear).1
  = Ok [Some (MkTensor 5 0 [(2, 3); (3, 1)]); None; Some (MkTensor 6 0 [(2, 1)])].
Proof. vm_compute. reflexivity. Defined.

Lemma ex_linear_backward_nobias :
  (LinearFunction.backward (Some ex_grad) ex_after_linear_nobias).1
  = Ok [Some (MkTensor 5 0 [(2, 3); (3, 1)]); None; None].
Proof. vm_compute. reflexivity. Defined.

Lemma ex_mul_backward :
  (MulConstant.backward (Some ex_grad) ex_after_mul).1
  = Ok [Some (MkTensor 5 0 [(2, 2); (2, 1)]); None].
Proof. vm_compute. reflexivity. Defined.

Lemma ex_mulopt_backward :
  (MulConstantOpt.backward None ex_after_mulopt).1 = Ok [None; None].
Proof. reflexivity. Defined.

Lemma ex_constant σ :
  constant (ctx σ) = Some 3%Z → is_Some (constant (ctx σ)).
Proof. intros ->. eauto. Defined.

Lemma C3_mul_backward_scales_witness :
  (∃ r σ',
     MulConstant.backward (Some ex_grad) ex_after_mul = (Ok [Some r; None], σ')
     ∧ scaled (heap ex_after_mul) (heap σ') ex_grad r 3%Z)
  ∧ (∃ r σ',
       MulConstantOpt.backward (Some ex_grad) ex_after_mulopt
       = (Ok [Some r; None], σ')
       ∧ scaled (heap ex_after_mulopt) (heap σ') ex_grad r 3%Z)
  ∧ [Some (MkTensor 5 0 [(2, 2); (2, 1)]); None] !! 1 = Some None.
Proof.
  destruct (C3_mul_backward_scales ex_state ex_after_mul (Some ex_input) 3%Z ex_grad)
    as (Hplain & _ & Hslot).
  destruct (C3_mul_backward_scales ex_state ex_after_mulopt (Some ex_input) 3%Z
              ex_grad) as (_ & Hopt & _).
  split_and!.
  - apply Hplain. reflexivity.
  - apply Hopt. reflexivity.
  - apply (Hslot (Some ex_grad)). left. exact ex_mul_backward.
Defined.

Lemma C5_unneeded_slots_are_None_witness :
  (needs_input_grad (ctx ex_after_linear) !! 1 = Some false
   ∧ [Some (MkTensor 5 0 [(2, 3); (3, 1)]); None; Some (MkTensor 6 0 [(2, 1)])] !! 1
     = Some None)
  ∧ [Some (MkTensor 5 0 [(2, 2); (2, 1)]); None] !! 1 = Some None
  ∧ [@None Tensor; None] !! 1 = Some None
  ∧ returns (LinearFunction.backward (Some ex_grad)) ex_after_linear
  ∧ returns (MulConstant.backward (Some ex_grad)) ex_after_mul
  ∧ returns (MulConstantOpt.backward None) ex_after_mulopt.
Proof.
  destruct (C5_unneeded_slots_are_None ex_after_linear (Some ex_grad))
    as (Hl & _ & _ & Hlr & _ & _).
  destruct (C5_unneeded_slots_are_None ex_after_mul (Some ex_grad))
    as (_ & Hm & _ & _ & Hmr & _).
  destruct (C5_unneeded_slots_are_None ex_after_mulopt None)
    as (_ & _ & Ho & _ & _ & Hor).
  split_and!.
  - reflexivity.
  - apply (Hl 1); [lia|reflexivity|exact ex_linear_backward].
  - apply Hm. exact ex_mul_backward.
  - apply Ho. exact ex_mulopt_backward.
  - apply Hlr. exact ex_engine_call.
  - apply Hmr; [apply ex_constant; reflexivity|eauto].
  - apply Hor. apply ex_constant. reflexivity.
Defined.

Lemma C6_one_slot_per_input_witness :
  (length [Some (MkTensor 5 0 [(2, 3); (3, 1)]); None; Some (MkTensor 6 0 [(2, 1)])]
   = 3
   ∧ shaped_like (Some (Some (MkTensor 5 0 [(2, 3); (3, 1)]))) (Some ex_input)
   ∧ shaped_like (Some None) (Some ex_weight)
   ∧ shaped_like (Some (Some (MkTensor 6 0 [(2, 1)]))) (Some ex_bias))
  ∧ (length [Some (MkTensor 5 0 [(2, 2); (2, 1)]); None] = 2
     ∧ shaped_like (Some (Some (MkTensor 5 0 [(2, 2); (2, 1)]))) (Some ex_grad))
  ∧ length [@None Tensor; None] = 2
  ∧ returns (LinearFunction.backward (Some ex_grad)) ex_after_linear
  ∧ returns (MulConstant.backward (Some ex_grad)) ex_after_mul
  ∧ returns (MulConstantOpt.backward None) ex_after_mulopt.
Proof.
  destruct (C6_one_slot_per_input ex_after_linear (Some ex_grad)
              [Some (MkTensor 5 0 [(2, 3); (3, 1)]); None;
               Some (MkTensor 6 0 [(2, 1)])])
    as (Hl & _ & _ & Hlr & _ & _).
  destruct (Hl ex_linear_backward) as (Hlen & Hshape).
  destruct (Hshape (Some ex_input) (Some ex_weight) (Some ex_bias) eq_refl
              ex_conformable) as (Hs0 & Hs1 & Hs2).
  destruct (C6_one_slot_per_input ex_after_mul (Some ex_grad)
              [Some (MkTensor 5 0 [(2, 2); (2, 1)]); None])
    as (_ & Hm & _ & _ & Hmr & _).
  destruct (Hm ex_mul_backward) as (Hmlen & Hms & _).
  destruct (C6_one_slot_per_input ex_after_mulopt None [None; None])
    as (_ & _ & Ho & _ & _ & Hor).
  destruct (Ho ex_mulopt_backward) as (Holen & _).
  split_and!; try assumption.
  - apply Hlr. exact ex_engine_call.
  - apply Hmr; [apply ex_constant; reflexivity|eauto].
  - apply Hor. apply ex_constant. reflexivity.
Defined.

Lemma C7_backward_keeps_grad_output_witness :
  same_values ex_grad ex_after_linear
    (LinearFunction.backward (Some ex_grad) ex_after_linear).2
  ∧ same_values ex_grad ex_after_linear
      (MulConstant.backward (Some ex_grad) ex_after_linear).2
  ∧ same_values ex_grad ex_after_linear
      (MulConstantOpt.backward (Some ex_grad) ex_after_linear).2.
Proof.
  apply (C7_backward_keeps_grad_output ex_after_linear ex_grad).
  exists [1; 2; 3; 4]%Z. vm_compute. reflexivity.
Defined.

Lemma C8_mul_variants_agree_witness :
  (∃ r σa' σb',
     MulConstant.backward (Some ex_grad) ex_after_mul = (Ok [Some r; None], σa')
     ∧ MulConstantOpt.backward (Some ex_grad) ex_after_mulopt
       = (Ok [Some r; None], σb')
     ∧ heap σa' = heap σb'
     ∧ scaled (heap ex_after_mul) (heap σa') ex_grad r 3%Z)
  ∧ MulConstant.backward None ex_after_mul = (Raise TypeError, ex_after_mul)
  ∧ MulConstantOpt.backward None ex_after_mulopt
    = (Ok [None; None], ex_after_mulopt).
Proof.
  apply (C8_mul_variants_agree ex_state ex_state ex_after_mul ex_after_mulopt
           (Some ex_input) 3%Z ex_grad).
  - reflexivity.
  - reflexivity.
  - vm_compute. reflexivity.
Defined.

Lemma C9_no_bias_no_bias_gradient_witness :
  needs_input_grad (ctx ex_after_linear_nobias) !! 2 = Some true
  ∧ [Some (MkTensor 5 0 [(2, 3); (3, 1)]); None; None] !! 2 = Some None
  ∧ returns (LinearFunction.backward (Some ex_grad)) ex_after_linear_nobias.
Proof.
  destruct (C9_no_bias_no_bias_gradient ex_state ex_after_linear_nobias
              (Some ex_input) (Some ex_weight) (Some ex_grad) eq_refl)
    as (Hslot & Hret).
  split_and!.
  - reflexivity.
  - apply Hslot. exact ex_linear_backward_nobias.
  - apply Hret. exact ex_engine_call_nobias.
Defined.

Lemma C10_forward_keeps_inputs_witness :
  same_values ex_bias ex_state
    (LinearFunction.forward (Some ex_input) (Some ex_weight) (Some ex_bias)
       ex_state).2
  ∧ ∀ out,
      (LinearFunction.forward (Some ex_input) (Some ex_weight) (Some ex_bias)
         ex_state).1 = Ok out →
      base out ≠ base ex_bias ∧ heap ex_state !! base out = None.
Proof.
  apply (C10_forward_keeps_inputs ex_state (Some ex_input) (Some ex_weight)
           (Some ex_bias) ex_bias).
  exists [10; 20; 30]%Z. vm_compute. reflexivity.
Defined.

(** ** Further properties: the context *)

Section ContextProperties.
Context `{Scalar R}.
Implicit Types (σ : state R).

#[local] Hint Resolve in_ctx_iadd in_ctx_set_elems : preserves.

(** X1: no [backward] writes to the context: saved tensors, flags and
    constant are after the call, returned or raised, what they were. *)
Theorem X1_backward_keeps_ctx σ (grad_output : option Tensor) :
  ctx (LinearFunction.backward grad_output σ).2 = ctx σ
  ∧ ctx (MulConstant.backward grad_output σ).2 = ctx σ
  ∧ ctx (MulConstantOpt.backward grad_output σ).2 = ctx σ.
Proof.
  split_and!.
  - apply (in_ctx_linear_backward (ctx σ) grad_output σ eq_refl).
  - apply (in_ctx_mul_backward (ctx σ) grad_output σ eq_refl).
  - apply (in_ctx_mulopt_backward (ctx σ) grad_output σ eq_refl).
Qed.

Lemma linear_forward_ctx σ input weight bias :
  ctx (LinearFunction.forward input weight bias σ).2
  = Context [input; weight; bias] (needs_input_grad (ctx σ))
            (constant (ctx σ)) (materialize_grads (ctx σ)).
Proof.
  unfold LinearFunction.forward.
  set (cs := Context [input; weight; bias] (needs_input_grad (ctx σ))
               (constant (ctx σ)) (materialize_grads (ctx σ))).
  set (σs := State (heap σ) cs (trace σ)).
  match goal with
  | |- context [mbind ?k (save_for_backward ?l)] =>
      assert (Hrest : preserves (in_ctx cs) (k tt) (λ _, True));
      [|change ((save_for_backward l ≫= k) σ) with (k tt σs)]
  end.
  - destruct bias; preserve.
  - apply (Hrest σs eq_refl).
Qed.

(** X2: each [forward] writes to the context what it is to keep for
    [backward] and nothing else, whether it returns or raises:
    [LinearFunction.forward] the three arguments as saved tensors,
    [MulConstant.forward] the constant, and the optimized one the constant
    and the materialization flag. *)
Theorem X2_forward_ctx σ (input weight bias tensor : option Tensor) (c : R) :
  ctx (LinearFunction.forward input weight bias σ).2
  = Context [input; weight; bias] (needs_input_grad (ctx σ))
            (constant (ctx σ)) (materialize_grads (ctx σ))
  ∧ ctx (MulConstant.forward tensor c σ).2
    = Context (to_save (ctx σ)) (needs_input_grad (ctx σ)) (Some c)
              (materialize_grads (ctx σ))
  ∧ ctx (MulConstantOpt.forward tensor c σ).2
    = Context (to_save (ctx σ)) (needs_input_grad (ctx σ)) (Some c) false.
Proof.
  split_and!.
  - apply linear_forward_ctx.
  - destruct tensor; reflexivity.
  - destruct tensor; reflexivity.
Qed.
End ContextProperties.

(** ** Further properties: absent values and failures *)

Section Failures.
Context `{Scalar R}.
Implicit Types (σ : state R).

(** X3: when no input needs a gradient, [LinearFunction.backward] returns
    [(None, None, None)] and does nothing else: it allocates nothing and
    performs no operation, whatever the upstream gradient is, [None]
    included. *)
Theorem X3_backward_nothing_needed σ (grad_output input weight bias : option Tensor) :
  to_save (ctx σ) = [input; weight; bias] →
  needs_input_grad (ctx σ) !! 0 = Some false →
  needs_input_grad (ctx σ) !! 1 = Some false →
  (is_Some bias → needs_input_grad (ctx σ) !! 2 = Some false) →
  LinearFunction.backward grad_output σ = (Ok [None; None; None], σ).
Proof.
  intros Hsaved Hn0 Hn1 Hn2.
  unfold LinearFunction.backward, saved_tensors, needs_input_grad_at, mbind, M_bind.
  simpl. rewrite Hsaved. simpl. rewrite Hn0. simpl. rewrite Hn1. simpl.
  destruct bias as [b|]; simpl; [rewrite Hn2 by eauto; simpl|]; by destruct σ.
Qed.

(** X4: [None] where a tensor is expected.  [LinearFunction.forward]
    raises [AttributeError] on a [None] input or weight, having saved its
    arguments and done nothing else; [MulConstant.forward] raises
    [TypeError] on a [None] tensor, having stored the constant; and
    [LinearFunction.backward], unlike the optimized [MulConstant.backward],
    does not handle an absent upstream gradient: as soon as one input needs
    a gradient it raises [AttributeError], leaving the machine as it was. *)
Theorem X4_none_arguments σ (input weight bias : option Tensor) (c : R)
    (n0 n1 n2 : bool) :
  (input = None ∨ weight = None →
   LinearFunction.forward input weight bias σ
   = (Raise AttributeError,
      State (heap σ)
            (Context [input; weight; bias] (needs_input_grad (ctx σ))
                     (constant (ctx σ)) (materialize_grads (ctx σ)))
            (trace σ)))
  ∧ MulConstant.forward None c σ
    = (Raise TypeError,
       State (heap σ)
             (Context (to_save (ctx σ)) (needs_input_grad (ctx σ)) (Some c)
                      (materialize_grads (ctx σ)))
             (trace σ))
  ∧ (to_save (ctx σ) = [input; weight; bias] →
     needs_input_grad (ctx σ) !! 0 = Some n0 →
     needs_input_grad (ctx σ) !! 1 = Some n1 →
     (is_Some bias → needs_input_grad (ctx σ) !! 2 = Some n2) →
     n0 || n1 || match bias with Some _ => n2 | None => false end = true →
     LinearFunction.backward None σ = (Raise AttributeError, σ)).
Proof.
  split_and!.
  - intros [-> | ->]; [reflexivity|]. destruct input; reflexivity.
  - reflexivity.
  - intros Hsaved Hn0 Hn1 Hn2 Hneeded.
    unfold LinearFunction.backward, saved_tensors, needs_input_grad_at, mbind, M_bind.
    simpl. rewrite Hsaved. simpl. rewrite Hn0. simpl.
    destruct n0; simpl; [by destruct σ|].
    rewrite Hn1. simpl. destruct n1; simpl; [by destruct σ|].
    destruct bias as [b|]; [|done]. simpl. rewrite Hn2 by eauto. simpl.
    simpl in Hneeded. subst n2. simpl. by destruct σ.
Qed.

(** X5: [backward] before [forward].  With no three tensors saved on the
    context [LinearFunction.backward] raises [ValueError] at the unpacking;
    with no constant stored both [MulConstant.backward]s raise
    [AttributeError] on a present gradient, and the plain one on any; the
    machine is left as it was. *)
Theorem X5_backward_before_forward σ (grad_output : option Tensor) :
  (length (to_save (ctx σ)) ≠ 3 →
   LinearFunction.backward grad_output σ = (Raise ValueError, σ))
  ∧ (constant (ctx σ) = None →
     MulConstant.backward grad_output σ = (Raise AttributeError, σ)
     ∧ (is_Some grad_output →
        MulConstantOpt.backward grad_output σ = (Raise AttributeError, σ))).
Proof.
  split.
  - intros Hlen.
    unfold LinearFunction.backward, saved_tensors, mbind, M_bind. simpl.
    destruct (to_save (ctx σ)) as [|? [|? [|? [|? ?]]]]; try done.
  - intros Hc. split.
    + unfold MulConstant.backward, get_constant, mbind, M_bind. simpl.
      rewrite Hc. done.
    + intros [g ->].
      unfold MulConstantOpt.backward, get_constant, mbind, M_bind. simpl.
      rewrite Hc. done.
Qed.

(** X6: [LinearFunction.forward] on an input whose rows are not as long as
    the weight's raises [RuntimeError] at the product; no storage has been
    allocated or changed, and the arguments are saved on the context. *)
Theorem X6_forward_inner_mismatch σ (a w : Tensor) (bias : option Tensor) m k n k' :
  sizes a = [m; k] → sizes w = [n; k'] → k ≠ k' →
  LinearFunction.forward (Some a) (Some w) bias σ
  = (Raise RuntimeError,
     State (heap σ)
           (Context [Some a; Some w; bias] (needs_input_grad (ctx σ))
                    (constant (ctx σ)) (materialize_grads (ctx σ)))
           (trace σ ++ [OpT] ++ [OpMm])).
Proof.
  intros Ha Hw Hne. destruct (dims_matrix _ _ _ Hw) as (s0 & s1 & Hd).
  destruct w as [lw ow dw]. simpl in Hd. subst dw.
  unfold LinearFunction.forward, Torch.mm, Torch.t, mbind, M_bind. simpl.
  rewrite Ha. rewrite decide_False by done. simpl.
  rewrite <- app_assoc. reflexivity.
Qed.
End Failures.

(** ** Further properties: what the calls compute and allocate *)

Section Computing.
Context `{Scalar R}.
Implicit Types (σ : state R) (x y g w : Tensor).

(** X7: [MulConstant.forward] returns a new tensor of the shape of its
    argument whose elements are those of the argument multiplied by the
    constant; the storages that were there are unchanged; the optimized
    [forward] returns the same tensor and leaves the same storages. *)
Theorem X7_mul_forward_scales σ x (c : R) :
  ∃ r σ' σo',
    MulConstant.forward (Some x) c σ = (Ok r, σ')
    ∧ MulConstantOpt.forward (Some x) c σ = (Ok r, σo')
    ∧ heap σo' = heap σ'
    ∧ scaled (heap σ) (heap σ') x r c
    ∧ heap σ !! base r = None
    ∧ holds (heap σ) σ'.
Proof.
  eexists _, _, _. split_and!; [reflexivity|reflexivity|reflexivity|..].
  - split; [apply sizes_dense|]. intros idx Hidx. simpl.
    apply (get_dense _ _ (sizes x) (λ idx, Rmul (Torch.get (heap σ) x idx) c)
             idx Hidx).
  - simpl. apply not_elem_of_dom, is_fresh.
  - unfold holds. simpl. apply insert_subseteq, not_elem_of_dom, is_fresh.
Qed.

(** The tensors a [backward] returns are not storages of [h0]. *)
Lemma holds_linear_backward_fresh (h0 : gmap loc (list R)) grad_output :
  preserves (holds h0) (LinearFunction.backward grad_output)
    (λ grads, ∀ i y, grads !! i = Some (Some y) → h0 !! base y = None).
Proof.
  unfold LinearFunction.backward.
  eapply preserves_bind; [apply preserves_saved_tensors|]. intros saved _.
  eapply preserves_bind; [apply preserves_unpack3|].
  intros [[input weight] bias] _. cbv zeta.
  eapply preserves_bind; [apply preserves_needs_input_grad_at|]. intros n0 _.
  eapply (preserves_bind _ _ _ (λ gi, ∀ y, gi = Some y → h0 !! base y = None)).
  { destruct n0; [|by apply preserves_ret].
    eapply preserves_bind; [apply preserves_self_of|]. intros g _.
    eapply preserves_bind; [apply preserves_arg_of|]. intros w _.
    eapply preserves_bind; [apply (preserves_mm _ _)|]. intros r Hr.
    apply preserves_ret. by intros y [= <-]. }
  intros gi Hgi.
  eapply preserves_bind; [apply preserves_needs_input_grad_at|]. intros n1 _.
  eapply (preserves_bind _ _ _ (λ gw, ∀ y, gw = Some y → h0 !! base y = None)).
  { destruct n1; [|by apply preserves_ret].
    eapply preserves_bind; [apply preserves_self_of|]. intros g _.
    eapply preserves_bind; [apply (preserves_t _ _)|]. intros gt _.
    eapply preserves_bind; [apply preserves_arg_of|]. intros x _.
    eapply preserves_bind; [apply (preserves_mm _ _)|]. intros r Hr.
    apply preserves_ret. by intros y [= <-]. }
  intros gw Hgw.
  eapply (preserves_bind _ _ _ (λ _, True)).
  { destruct bias; [apply preserves_needs_input_grad_at|by apply preserves_ret]. }
  intros n2 _.
  eapply (preserves_bind _ _ _ (λ gb, ∀ y, gb = Some y → h0 !! base y = None)).
  { destruct n2; [|by apply preserves_ret].
    eapply preserves_bind; [apply preserves_self_of|]. intros g _.
    eapply preserves_bind; [apply (preserves_sum0 _ _)|]. intros r Hr.
    apply preserves_ret. by intros y [= <-]. }
  intros gb Hgb. apply preserves_ret.
  intros [|[|[|i]]] y; simpl; intros [= ->]; auto.
Qed.

(** X8: the tensors a [backward] returns are new: each lives in a storage
    that did not exist when [backward] was called, so a returned gradient
    is never a view of the upstream gradient or of a saved tensor. *)
Theorem X8_backward_results_fresh σ (grad_output : option Tensor) grads :
  ((LinearFunction.backward grad_output σ).1 = Ok grads → all_fresh σ grads)
  ∧ ((MulConstant.backward grad_output σ).1 = Ok grads → all_fresh σ grads)
  ∧ ((MulConstantOpt.backward grad_output σ).1 = Ok grads → all_fresh σ grads).
Proof.
  assert (Hσ : holds (heap σ) σ) by (unfold holds; done).
  split_and!.
  - intros Hrun.
    destruct (holds_linear_backward_fresh (heap σ) grad_output σ Hσ) as [_ Hq].
    exact (Hq grads Hrun).
  - unfold MulConstant.backward, get_constant, mbind, M_bind. simpl.
    destruct (constant (ctx σ)); [|done].
    destruct grad_output as [g|]; [|done]. simpl.
    intros [= <-] [|[|i]] y; simpl; intros [= <-].
    simpl. apply not_elem_of_dom, is_fresh.
  - unfold MulConstantOpt.backward, get_constant, mbind, M_bind.
    destruct grad_output as [g|]; simpl.
    + destruct (constant (ctx σ)); [|done]. simpl.
      intros [= <-] [|[|i]] y; simpl; intros [= <-].
      simpl. apply not_elem_of_dom, is_fresh.
    + intros [= <-] [|[|i]] y; simpl; intros [=].
Qed.
End Computing.

(** ** Further properties: the gradients and the operations spent on them *)

Section Spending.
Context `{Scalar R}.
Implicit Types (σ : state R) (x y g w : Tensor).

Lemma grad_input_trace σ (n0 : bool) g w m n k :
  sizes g = [m; n] → sizes w = [n; k] →
  trace ((if n0 then
            g' ← self_of (Some g); w' ← arg_of (Some w); r ← Torch.mm g' w';
            mret (Some r)
          else mret None) σ).2
  = trace σ ++ (if n0 then [OpMm] else []).
Proof.
  intros Hg Hw. destruct n0; [|by rewrite app_nil_r].
  rewrite (bind_run _ _ σ g σ) by done.
  rewrite (bind_run _ _ σ w σ) by done.
  rewrite (bind_run _ _ _ _ _ (mm_run σ g w m n k Hg Hw)). reflexivity.
Qed.

Lemma grad_weight_trace σ (n1 : bool) g x m n k :
  sizes g = [m; n] → sizes x = [m; k] →
  trace ((if n1 then
            g' ← self_of (Some g); gt ← Torch.t g'; i ← arg_of (Some x);
            r ← Torch.mm gt i; mret (Some r)
          else mret None) σ).2
  = trace σ ++ (if n1 then [OpT; OpMm] else []).
Proof.
  intros Hg Hx. destruct n1; [|by rewrite app_nil_r].
  destruct (dims_matrix _ _ _ Hg) as (s0 & s1 & Hd).
  destruct g as [lg og dg]. simpl in Hd. subst dg.
  rewrite (bind_run _ _ σ _ σ) by done.
  rewrite (bind_run _ _ σ _ _ (t_run _ _ _ _ _)).
  rewrite (bind_run _ _ _ x (logged σ OpT)) by done.
  rewrite (bind_run _ _ _ _ _
             (mm_run (logged σ OpT) (MkTensor lg og [(n, s1); (m, s0)]) x
                     n m k eq_refl Hx)).
  simpl. rewrite <- app_assoc. reflexivity.
Qed.

Lemma grad_bias_trace σ (n2 : bool) g m n :
  sizes g = [m; n] →
  trace ((if n2 then g' ← self_of (Some g); r ← Torch.sum0 g'; mret (Some r)
          else mret None) σ).2
  = trace σ ++ (if n2 then [OpSum] else []).
Proof.
  intros Hg. destruct n2; [|by rewrite app_nil_r].
  rewrite (bind_run _ _ σ g σ) by done.
  rewrite (bind_run _ _ _ _ _ (sum0_run σ g m [n] Hg)). reflexivity.
Qed.

(** X9: [LinearFunction.backward] spends operations only on the gradients
    that are needed: on a conformable call it performs one product for the
    input if it needs a gradient, one transposition and one product for the
    weight if it does, one sum for the bias if there is one and it does,
    in this order, and nothing else. *)
Theorem X9_backward_operations σ x w (bias : option Tensor) g
    (n0 n1 n2 : bool) m k n :
  to_save (ctx σ) = [Some x; Some w; bias] →
  needs_input_grad (ctx σ) !! 0 = Some n0 →
  needs_input_grad (ctx σ) !! 1 = Some n1 →
  (is_Some bias → needs_input_grad (ctx σ) !! 2 = Some n2) →
  sizes x = [m; k] → sizes w = [n; k] → sizes g = [m; n] →
  trace (LinearFunction.backward (Some g) σ).2
  = trace σ ++ backward_ops n0 n1 match bias with Some _ => n2 | None => false end.
Proof.
  intros Hsaved Hn0 Hn1 Hn2 Hx Hw Hg.
  unfold LinearFunction.backward.
  rewrite (bind_run _ _ σ (to_save (ctx σ)) σ) by done.
  rewrite Hsaved.
  rewrite (bind_run _ _ σ (Some x, Some w, bias) σ) by done.
  cbv zeta.
  rewrite (bind_run _ _ σ n0 σ)
    by (unfold needs_input_grad_at, mbind, M_bind; simpl; rewrite Hn0; done).
  destruct (grad_input_run σ n0 g w m n k Hg Hw)
    as (gi & σ1 & Hrun1 & Hc1 & _).
  pose proof (grad_input_trace σ n0 g w m n k Hg Hw) as Ht1.
  rewrite Hrun1 in Ht1. simpl in Ht1.
  rewrite (bind_run _ _ _ _ _ Hrun1).
  rewrite (bind_run _ _ σ1 n1 σ1)
    by (unfold needs_input_grad_at, mbind, M_bind; simpl; rewrite Hc1, Hn1; done).
  destruct (grad_weight_run σ1 n1 g x m n k Hg Hx)
    as (gw & σ2 & Hrun2 & Hc2 & _).
  pose proof (grad_weight_trace σ1 n1 g x m n k Hg Hx) as Ht2.
  rewrite Hrun2 in Ht2. simpl in Ht2.
  rewrite (bind_run _ _ _ _ _ Hrun2).
  set (n2' := match bias with Some _ => n2 | None => false end).
  rewrite (bind_run _ _ σ2 n2' σ2).
  2:{ subst n2'. destruct bias; [|done].
      unfold needs_input_grad_at, mbind, M_bind; simpl.
      rewrite Hc2, Hc1, Hn2 by eauto. done. }
  destruct (grad_bias_run σ2 n2' g m n Hg) as (gb & σ3 & Hrun3 & _).
  pose proof (grad_bias_trace σ2 n2' g m n Hg) as Ht3.
  rewrite Hrun3 in Ht3. simpl in Ht3.
  rewrite (bind_run _ _ _ _ _ Hrun3). simpl.
  rewrite Ht3, Ht2, Ht1. unfold backward_ops. rewrite !app_assoc. done.
Qed.

(** X10: on a conformable call [LinearFunction.backward] returns, and the
    slot of each input that needs a gradient holds a new tensor of the
    shape of that input: for the input the product of the upstream gradient
    with the weight, for the weight the product of the transposed upstream
    gradient with the input, for the bias the column sums of the upstream
    gradient; the other slots are [None]. *)
Theorem X10_backward_gradients σ x w (bias : option Tensor) g
    (n0 n1 n2 : bool) m k n :
  to_save (ctx σ) = [Some x; Some w; bias] →
  needs_input_grad (ctx σ) !! 0 = Some n0 →
  needs_input_grad (ctx σ) !! 1 = Some n1 →
  (is_Some bias → needs_input_grad (ctx σ) !! 2 = Some n2) →
  sizes x = [m; k] → sizes w = [n; k] → sizes g = [m; n] →
  is_Some (heap σ !! base x) → is_Some (heap σ !! base w) →
  is_Some (heap σ !! base g) →
  ∃ gi gw gb σ',
    LinearFunction.backward (Some g) σ = (Ok [gi; gw; gb], σ')
    ∧ slot_is n0 gi [m; k] True (λ y,
        ∀ i l, i < m → l < k →
          Torch.get (heap σ') y [i; l] = grad_input_entry (heap σ) g w n i l)
    ∧ slot_is n1 gw [n; k] True (λ y,
        ∀ j l, j < n → l < k →
          Torch.get (heap σ') y [j; l] = grad_weight_entry (heap σ) g x m j l)
    ∧ slot_is match bias with Some _ => n2 | None => false end gb [n] True
        (λ y, ∀ j, j < n →
           Torch.get (heap σ') y [j] = grad_bias_entry (heap σ) g m j).
Proof.
  intros Hsaved Hn0 Hn1 Hn2 Hx Hw Hg Hax Haw Hag.
  destruct (linear_backward_gradients σ x w bias g n0 n1 n2 m k n
              Hsaved Hn0 Hn1 Hn2 Hx Hw Hg)
    as (gi & gw & gb & σ' & Hrun & _ & Hi & Hwt & Hb).
  exists gi, gw, gb, σ'. split; [done|].
  unfold slot_is in *.
  split_and!.
  - destruct n0; [|done]. destruct Hi as (y & ? & ? & Hv). exists y.
    split_and!; [done..|]. intros _. by apply Hv.
  - destruct n1; [|done]. destruct Hwt as (y & ? & ? & Hv). exists y.
    split_and!; [done..|]. intros _. by apply Hv.
  - destruct (match bias with Some _ => n2 | None => false end); [|done].
    destruct Hb as (y & ? & ? & Hv). exists y.
    split_and!; [done..|]. intros _. by apply Hv.
Qed.
End Spending.

(** ** Further properties: a forward pass followed by a backward pass *)

Section Passes.
Context `{Scalar R}.
Implicit Types (σ : state R) (x y g w : Tensor).


(** X11: a backward pass after a forward pass computes the gradients from
    the tensors the forward pass was given, as they were then: when
    [LinearFunction.forward] has returned and, with whatever happened since,
    the storages it left are unchanged and the context is as it left it,
    [LinearFunction.backward] returns, for each input that needs a gradient,
    the product or column sum built from the upstream gradient and the
    input and weight read before the forward pass. *)
Theorem X11_forward_then_backward σ σ1 σm a w (bias : option Tensor) out g
    (n0 n1 n2 : bool) m k n :
  LinearFunction.forward (Some a) (Some w) bias σ = (Ok out, σ1) →
  holds (heap σ1) σm → ctx σm = ctx σ1 →
  needs_input_grad (ctx σ) !! 0 = Some n0 →
  needs_input_grad (ctx σ) !! 1 = Some n1 →
  (is_Some bias → needs_input_grad (ctx σ) !! 2 = Some n2) →
  sizes a = [m; k] → sizes w = [n; k] → sizes g = [m; n] →
  is_Some (heap σ !! base a) → is_Some (heap σ !! base w) →
  is_Some (heap σm !! base g) →
  ∃ gi gw gb σ2,
    LinearFunction.backward (Some g) σm = (Ok [gi; gw; gb], σ2)
    ∧ slot_is n0 gi [m; k] True (λ y,
        ∀ i l, i < m → l < k →
          Torch.get (heap σ2) y [i; l]
          = Torch.dot n (λ j, Torch.get (heap σm) g [i; j])
                        (λ j, Torch.get (heap σ) w [j; l]))
    ∧ slot_is n1 gw [n; k] True (λ y,
        ∀ j l, j < n → l < k →
          Torch.get (heap σ2) y [j; l]
          = Torch.dot m (λ i, Torch.get (heap σm) g [i; j])
                        (λ i, Torch.get (heap σ) a [i; l]))
    ∧ slot_is match bias with Some _ => n2 | None => false end gb [n] True
        (λ y, ∀ j, j < n →
           Torch.get (heap σ2) y [j] = grad_bias_entry (heap σm) g m j).
Proof.
  intros Hfwd Hkeep Hctx Hn0 Hn1 Hn2 Ha Hw Hg Haa Haw Hag.
  pose proof (linear_forward_ctx σ (Some a) (Some w) bias) as Hc1.
  pose proof (holds_after _ _ σ
                (holds_linear_forward (heap σ) (Some a) (Some w) bias)) as Hh1.
  rewrite Hfwd in Hc1, Hh1. simpl in Hc1, Hh1.
  assert (Hh : holds (heap σ) σm) by (by apply (holds_trans σ σ1 σm)).
  assert (Haa' : is_Some (heap σm !! base a)).
  { destruct Haa as [s Hs]. exists s. by apply (lookup_weaken (heap σ)). }
  assert (Haw' : is_Some (heap σm !! base w)).
  { destruct Haw as [s Hs]. exists s. by apply (lookup_weaken (heap σ)). }
  destruct (linear_backward_gradients σm a w bias g n0 n1 n2 m k n)
    as (gi & gw & gb & σ2 & Hrun & _ & Hi & Hwt & Hb);
    try (rewrite Hctx, Hc1; simpl; done); try done.
  exists gi, gw, gb, σ2. split; [done|].
  unfold slot_is in *. split_and!.
  - destruct n0; [|done]. destruct Hi as (y & ? & ? & Hv). exists y.
    split_and!; [done..|]. intros _ i l Hi Hl.
    rewrite Hv by done. unfold grad_input_entry.
    apply dot_ext; [done|]. intros j. by apply same_values_get.
  - destruct n1; [|done]. destruct Hwt as (y & ? & ? & Hv). exists y.
    split_and!; [done..|]. intros _ j l Hj Hl.
    rewrite Hv by done. unfold grad_weight_entry.
    apply dot_ext; [done|]. intros i. by apply same_values_get.
  - destruct (match bias with Some _ => n2 | None => false end); [|done].
    destruct Hb as (y & ? & ? & Hv). exists y.
    split_and!; [done..|]. intros _. by apply Hv.
Qed.
End Passes.

(** ** Further properties: the gradient check in exact arithmetic *)

Section Checking.
Local Open Scope Z_scope.
Implicit Types (σ : state Z) (a w g x : Tensor) (ε : Z).




End Checking.

(** ** Further properties: a bias of length 1 *)

Section Broadcasting.
Context `{Scalar R}.
Implicit Types (σ : state R) (x y g w b : Tensor).

(** Expanding a [1 × 1] view to [m × n]: each stride becomes 0, unless the
    size stays 1. *)
Lemma expand_single σ l o s1 s m n :
  Torch.expand (MkTensor l o [(1, s1); (1, s)]) [m; n] σ
  = (Ok (MkTensor l o [(m, if decide (1 = m) then s1 else 0);
                       (n, if decide (1 = n) then s else 0)]), σ).
Proof.
  unfold Torch.expand. simpl.
  destruct (decide (1 = n)); destruct (decide (1 = m)); reflexivity.
Qed.

Lemma get_expanded_single (h : gmap loc (list R)) l o s1 s m n i j :
  i < m → j < n →
  Torch.get h (MkTensor l o [(m, if decide (1 = m) then s1 else 0);
                             (n, if decide (1 = n) then s else 0)]) [i; j]
  = Torch.get h (MkTensor l o [(1, s)]) [0].
Proof.
  intros Hi Hj. unfold Torch.get, strides, lin. simpl. do 3 f_equal.
  destruct (decide (1 = m)); destruct (decide (1 = n)); nia.
Qed.

(** The in-place addition of a bias of length 1 to the fresh product. *)
Lemma bias_broadcast_run σ p m n f b :
  sizes b = [1] → is_Some (heap σ !! base b) →
  ∃ σ',
    (u ← Torch.unsqueeze0 b;
     e ← Torch.expand_as u (dense_at σ [m; n]);
     Torch.iadd (dense_at σ [m; n]) e) (allocated σ p [m; n] f)
    = (Ok (dense_at σ [m; n]), σ')
    ∧ ctx σ' = ctx σ
    ∧ ∀ i j, i < m → j < n →
        Torch.get (heap σ') (dense_at σ [m; n]) [i; j]
        = Radd (f [i; j]) (Torch.get (heap σ) b [0]).
Proof.
  intros Hb Hal. destruct (dims_vector _ _ Hb) as (s & Hd).
  destruct b as [lb ob db]. simpl in Hd, Hal. subst db.
  set (σ1 := allocated σ p [m; n] f).
  set (out := dense_at σ [m; n]).
  set (e := MkTensor lb ob [(m, if decide (1 = m) then 1 * s else 0);
                            (n, if decide (1 = n) then s else 0)]).
  assert (Hout : sizes out = [m; n]) by apply sizes_dense.
  eexists. split_and!.
  - rewrite (bind_run _ _ σ1 _ _ (unsqueeze0_run _ _ _ _ _)).
    rewrite (bind_run _ _ _ e (logged (logged σ1 OpUnsqueeze) OpExpandAs)).
    2:{ unfold Torch.expand_as.
        rewrite (bind_run _ _ _ tt (logged (logged σ1 OpUnsqueeze) OpExpandAs))
          by done.
        rewrite Hout. apply expand_single. }
    rewrite iadd_run by (rewrite Hout; done). reflexivity.
  - reflexivity.
  - intros i j Hi Hj. cbn [heap logged σ1 allocated].
    rewrite alter_insert_eq.
    rewrite Hout. unfold out, dense_at.
    rewrite write_all_dense.
    2:{ rewrite length_fmap. apply indices_length. }
    2:{ rewrite length_fmap. apply indices_length. }
    rewrite (get_dense _ _ [m; n] _ [i; j]) by (repeat constructor; done).
    f_equal.
    + apply (get_dense _ _ [m; n] f [i; j]). repeat constructor; done.
    + rewrite get_insert_ne.
      * apply (get_expanded_single _ lb ob (1 * s) s m n i j Hi Hj).
      * simpl. intros ->. apply (is_fresh (dom (heap σ))). by apply elem_of_dom.
Qed.

(** X16: a bias of length 1.  [LinearFunction.forward] accepts it whatever
    the number of rows of the weight, and adds its only element to every
    entry of the product; [LinearFunction.backward] then returns for it a
    gradient with one element per row of the weight, which is not of the
    shape of the bias unless the weight has one row. *)
Theorem X16_bias_of_length_one σ a w b g (n0 n1 : bool) m k n :
  sizes a = [m; k] → sizes w = [n; k] → sizes b = [1] → sizes g = [m; n] →
  n ≠ 1 →
  is_Some (heap σ !! base b) →
  needs_input_grad (ctx σ) !! 0 = Some n0 →
  needs_input_grad (ctx σ) !! 1 = Some n1 →
  needs_input_grad (ctx σ) !! 2 = Some true →
  ∃ out σ1 gi gw y σ2,
    LinearFunction.forward (Some a) (Some w) (Some b) σ = (Ok out, σ1)
    ∧ sizes out = [m; n]
    ∧ (∀ i j, i < m → j < n →
         Torch.get (heap σ1) out [i; j]
         = Radd (Torch.dot k (λ l, Torch.get (heap σ) a [i; l])
                             (λ l, Torch.get (heap σ) w [j; l]))
                (Torch.get (heap σ) b [0]))
    ∧ LinearFunction.backward (Some g) σ1 = (Ok [gi; gw; Some y], σ2)
    ∧ sizes y = [n]
    ∧ sizes y ≠ sizes b.
Proof.
  intros Ha Hw Hb Hg Hn Hal Hn0 Hn1 Hn2.
  pose proof (linear_forward_ctx σ (Some a) (Some w) (Some b)) as Hc1.
  revert Hc1. unfold LinearFunction.forward.
  set (σs := State (heap σ)
               (Context [Some a; Some w; Some b] (needs_input_grad (ctx σ))
                        (constant (ctx σ)) (materialize_grads (ctx σ)))
               (trace σ)).
  rewrite (bind_run _ _ σ tt σs) by done.
  destruct (product_run σs a w m k n Ha Hw) as (f & Hrun & Hf).
  rewrite (bind_run _ _ _ _ _ Hrun).
  change (dense_at σs [m; n]) with (dense_at (logged σs OpT) [m; n]).
  destruct (bias_broadcast_run (logged σs OpT) OpMm m n f b Hb Hal)
    as (σ1 & Hadd & _ & Hget).
  rewrite (bind_run _ _ _ _ _ Hadd). simpl. intros Hc1.
  destruct (linear_backward_gradients σ1 a w (Some b) g n0 n1 true m k n)
    as (gi & gw & gb & σ2 & Hback & _ & _ & _ & (y & -> & Hy & _));
    try (rewrite Hc1; simpl; done); try done.
  exists (dense_at (logged σs OpT) [m; n]), σ1, gi, gw, y, σ2.
  split_and!; [reflexivity|apply sizes_dense| |exact Hback|exact Hy|].
  - intros i j Hi Hj. rewrite Hget by done. rewrite Hf. done.
  - rewrite Hy, Hb. intros [= ?]. done.
Qed.
End Broadcasting.

(** ** Further properties: arguments that are not matrices *)

Section Matrices.
Context `{Scalar R}.
Implicit Types (σ : state R) (a w : Tensor).

(** X17: [LinearFunction.forward] requires matrices: when the input or the
    weight does not have exactly two dimensions it raises [RuntimeError],
    at the transposition or at the product, before any storage is
    allocated or written; its arguments are saved on the context. *)
Theorem X17_forward_requires_matrices σ a w (bias : option Tensor) :
  length (sizes a) ≠ 2 ∨ length (sizes w) ≠ 2 →
  ∃ σ',
    LinearFunction.forward (Some a) (Some w) bias σ = (Raise RuntimeError, σ')
    ∧ heap σ' = heap σ
    ∧ to_save (ctx σ') = [Some a; Some w; bias].
Proof.
  intros Hdims. destruct a as [la oa da], w as [lw ow dw].
  unfold sizes in Hdims. simpl in Hdims. rewrite !length_fmap in Hdims.
  unfold LinearFunction.forward, Torch.t, Torch.mm, sizes, mbind, M_bind.
  destruct dw as [|[n0 s0] [|[n1 s1] [|[n2 s2] dw]]];
    destruct da as [|[m0 r0] [|[m1 r1] [|[m2 r2] da]]];
    simpl in *; try (eexists; split_and!; reflexivity).
  destruct Hdims; done.
Qed.
End Matrices.

(** ** The further properties at the concrete machines *)

Lemma X3_backward_nothing_needed_witness :
  LinearFunction.backward None ex_frozen = (Ok [None; None; None], ex_frozen).
Proof.
  apply (X3_backward_nothing_needed ex_frozen None (Some ex_input)
           (Some ex_weight) (Some ex_bias)).
  - reflexivity.
  - reflexivity.
  - reflexivity.
  - intros _. reflexivity.
Defined.

Lemma X4_none_arguments_witness :
  LinearFunction.forward None (Some ex_weight) (Some ex_bias) ex_state
  = (Raise AttributeError,
     State (heap ex_state)
           (Context [None; Some ex_weight; Some ex_bias] [true; false; true]
                    None true) [])
  ∧ MulConstant.forward None 3%Z ex_state
    = (Raise TypeError,
       State (heap ex_state) (Context [] [true; false; true] (Some 3%Z) true) [])
  ∧ LinearFunction.backward None ex_after_linear
    = (Raise AttributeError, ex_after_linear).
Proof.
  destruct (X4_none_arguments ex_state None (Some ex_weight) (Some ex_bias)
              3%Z true false true) as (Hforward & Hmul & _).
  destruct (X4_none_arguments ex_after_linear (Some ex_input) (Some ex_weight)
              (Some ex_bias) 3%Z true false true) as (_ & _ & Hbackward).
  split_and!.
  - apply Hforward. left. reflexivity.
  - exact Hmul.
  - apply Hbackward; reflexivity.
Defined.

Lemma X5_backward_before_forward_witness :
  LinearFunction.backward (Some ex_grad) ex_state = (Raise ValueError, ex_state)
  ∧ MulConstant.backward (Some ex_grad) ex_state
    = (Raise AttributeError, ex_state)
  ∧ MulConstantOpt.backward (Some ex_grad) ex_state
    = (Raise AttributeError, ex_state).
Proof.
  destruct (X5_backward_before_forward ex_state (Some ex_grad))
    as (Hlinear & Hmul).
  destruct (Hmul eq_refl) as (Hplain & Hopt).
  split_and!.
  - apply Hlinear. simpl. lia.
  - exact Hplain.
  - apply Hopt. eauto.
Defined.

Lemma X6_forward_inner_mismatch_witness :
  LinearFunction.forward (Some ex_input) (Some ex_weight_narrow) (Some ex_bias)
    ex_state
  = (Raise RuntimeError,
     State (heap ex_state)
           (Context [Some ex_input; Some ex_weight_narrow; Some ex_bias]
                    (needs_input_grad (ctx ex_state)) (constant (ctx ex_state))
                    (materialize_grads (ctx ex_state)))
           (trace ex_state ++ [OpT] ++ [OpMm])).
Proof.
  apply (X6_forward_inner_mismatch ex_state ex_input ex_weight_narrow
           (Some ex_bias) 2 3 3 2).
  - reflexivity.
  - reflexivity.
  - lia.
Defined.

Lemma X8_backward_results_fresh_witness :
  all_fresh ex_after_linear
    [Some (MkTensor 5 0 [(2, 3); (3, 1)]); None; Some (MkTensor 6 0 [(2, 1)])]
  ∧ all_fresh ex_after_mul [Some (MkTensor 5 0 [(2, 2); (2, 1)]); None]
  ∧ all_fresh ex_after_mulopt [None; None].
Proof.
  destruct (X8_backward_results_fresh ex_after_linear (Some ex_grad)
              [Some (MkTensor 5 0 [(2, 3); (3, 1)]); None;
               Some (MkTensor 6 0 [(2, 1)])]) as (Hlinear & _ & _).
  destruct (X8_backward_results_fresh ex_after_mul (Some ex_grad)
              [Some (MkTensor 5 0 [(2, 2); (2, 1)]); None]) as (_ & Hmul & _).
  destruct (X8_backward_results_fresh ex_after_mulopt None [None; None])
    as (_ & _ & Hopt).
  split_and!.
  - apply Hlinear. exact ex_linear_backward.
  - apply Hmul. exact ex_mul_backward.
  - apply Hopt. exact ex_mulopt_backward.
Defined.

Lemma X9_backward_operations_witness :
  trace (LinearFunction.backward (Some ex_grad) ex_after_linear).2
  = trace ex_after_linear ++ backward_ops true false true.
Proof.
  apply (X9_backward_operations ex_after_linear ex_input ex_weight
           (Some ex_bias) ex_grad true false true 2 3 2).
  - reflexivity.
  - reflexivity.
  - reflexivity.
  - intros _. reflexivity.
  - reflexivity.
  - reflexivity.
  - reflexivity.
Defined.

Lemma X10_backward_gradients_witness :
  ∃ gi gw gb σ',
    LinearFunction.backward (Some ex_grad) ex_after_linear = (Ok [gi; gw; gb], σ')
    ∧ slot_is true gi [2; 3] True (λ y,
        ∀ i l, i < 2 → l < 3 →
          Torch.get (heap σ') y [i; l]
          = grad_input_entry (heap ex_after_linear) ex_grad ex_weight 2 i l)
    ∧ slot_is false gw [2; 3] True (λ y,
        ∀ j l, j < 2 → l < 3 →
          Torch.get (heap σ') y [j; l]
          = grad_weight_entry (heap ex_after_linear) ex_grad ex_input 2 j l)
    ∧ slot_is true gb [2] True (λ y,
        ∀ j, j < 2 →
          Torch.get (heap σ') y [j]
          = grad_bias_entry (heap ex_after_linear) ex_grad 2 j).
Proof.
  apply (X10_backward_gradients ex_after_linear ex_input ex_weight
           (Some ex_bias) ex_grad true false true 2 3 2).
  - reflexivity.
  - reflexivity.
  - reflexivity.
  - intros _. reflexivity.
  - reflexivity.
  - reflexivity.
  - reflexivity.
  - exists [1; 2; 3; 4; 5; 6]%Z. vm_compute. reflexivity.
  - exists [1; 0; 0; 1; 1; 1]%Z. vm_compute. reflexivity.
  - exists [1; 2; 3; 4]%Z. vm_compute. reflexivity.
Defined.

Lemma X11_forward_then_backward_witness :
  ∃ gi gw gb σ2,
    LinearFunction.backward (Some ex_grad) ex_after_linear
    = (Ok [gi; gw; gb], σ2)
    ∧ slot_is true gi [2; 3] True (λ y,
        ∀ i l, i < 2 → l < 3 →
          Torch.get (heap σ2) y [i; l]
          = Torch.dot 2 (λ j, Torch.get (heap ex_after_linear) ex_grad [i; j])
                        (λ j, Torch.get (heap ex_state) ex_weight [j; l]))
    ∧ slot_is false gw [2; 3] True (λ y,
        ∀ j l, j < 2 → l < 3 →
          Torch.get (heap σ2) y [j; l]
          = Torch.dot 2 (λ i, Torch.get (heap ex_after_linear) ex_grad [i; j])
                        (λ i, Torch.get (heap ex_state) ex_input [i; l]))
    ∧ slot_is true gb [2] True (λ y,
        ∀ j, j < 2 →
          Torch.get (heap σ2) y [j]
          = grad_bias_entry (heap ex_after_linear) ex_grad 2 j).
Proof.
  apply (X11_forward_then_backward ex_state ex_after_linear ex_after_linear
           ex_input ex_weight (Some ex_bias) (MkTensor 4 0 [(2, 2); (2, 1)])
           ex_grad true false true 2 3 2).
  - vm_compute. reflexivity.
  - unfold holds. reflexivity.
  - reflexivity.
  - reflexivity.
  - reflexivity.
  - intros _. reflexivity.
  - reflexivity.
  - reflexivity.
  - reflexivity.
  - exists [1; 2; 3; 4; 5; 6]%Z. vm_compute. reflexivity.
  - exists [1; 0; 0; 1; 1; 1]%Z. vm_compute. reflexivity.
  - exists [1; 2; 3; 4]%Z. vm_compute. reflexivity.
Defined.





Lemma X16_bias_of_length_one_witness :
  ∃ out σ1 gi gw y σ2,
    LinearFunction.forward (Some ex_input) (Some ex_weight) (Some ex_bias_one)
      ex_state_all = (Ok out, σ1)
    ∧ sizes out = [2; 2]
    ∧ (∀ i j, i < 2 → j < 2 →
         Torch.get (heap σ1) out [i; j]
         = Radd (Torch.dot 3 (λ l, Torch.get (heap ex_state_all) ex_input [i; l])
                             (λ l, Torch.get (heap ex_state_all) ex_weight [j; l]))
                (Torch.get (heap ex_state_all) ex_bias_one [0]))
    ∧ LinearFunction.backward (Some ex_grad) σ1 = (Ok [gi; gw; Some y], σ2)
    ∧ sizes y = [2]
    ∧ sizes y ≠ sizes ex_bias_one.
Proof.
  apply (X16_bias_of_length_one ex_state_all ex_input ex_weight ex_bias_one
           ex_grad true true 2 3 2); try reflexivity.
  - lia.
  - by eexists.
Defined.

Lemma X17_forward_requires_matrices_witness :
  ∃ σ',
    LinearFunction.forward (Some ex_bias) (Some ex_weight) None ex_state
    = (Raise RuntimeError, σ')
    ∧ heap σ' = heap ex_state
    ∧ to_save (ctx σ') = [Some ex_bias; Some ex_weight; None].
Proof.
  apply (X17_forward_requires_matrices ex_state ex_bias ex_weight None).
  left. simpl. lia.
Defined.
